(** * deployer2: the deployment pipeline of [main.go]

    A shallow embedding of [main] (src/main.go): flag and environment
    resolution, image-name computation, the patch document built for each
    workload, and the sequencing of the external commands with Go's
    deferred cleanup.  External collaborators (manifest loader, build
    tool, docker, kubectl, temporary files, the clock) are an oracle
    [World] whose answers may depend on everything called so far; every
    call is recorded, with the error it returned, in a trace.  Log output
    is not modelled: it does not influence control flow. *)

From Stdlib Require Import ZArith String Ascii List Bool Lia DecimalString.
From stdpp Require Import base option list strings gmap.

Import ListNotations.
Local Open Scope string_scope.
Local Open Scope list_scope.

(** ** Go values *)

(** A Go [error] value: its message. [nil] is [None] in [option error]. *)
Definition error := string.

(** [fmt.Sprintf("%d", n)] for an [int] kept as [Z]. *)
Definition fmt_d (n : Z) : string := NilZero.string_of_int (Z.to_int n).

(** [strings.Split(s, ".")]: the pieces of [s] between the dots; always
    one piece more than there are dots, so [""] gives one empty piece. *)
Fixpoint Split_dot (s : string) : list string :=
  match s with
  | EmptyString => [EmptyString]
  | String c s' =>
      if Ascii.eqb c "."%char then EmptyString :: Split_dot s'
      else match Split_dot s' with
           | piece :: rest => String c piece :: rest
           | [] => [String c EmptyString]
           end
  end.

(** The process environment; [os.Getenv] gives [""] for an unset name. *)
Definition Getenv (environ : gmap string string) (key : string) : string :=
  default EmptyString (environ !! key).

(** ** Data model (types of the repository used by [main]) *)

(** One [--workload CLUSTER/NAMESPACE/TYPE/NAME[/CONTAINER]] target.
    [Type_] is the Go field [Type]. *)
Record Workload := {
  Cluster : string;
  Namespace : string;
  Type_ : string;
  Name : string;
  Container : string;
  IsInit : bool
}.

Definition WorkloadOptions := list Workload.

Record LimitOption := { Min : Z; Max : Z }.

(** Modelled from the spec: the method [LimitOption.IsZero] is not in
    main.go; "true iff both fields are 0". *)
Definition IsZero (l : LimitOption) : bool := (Min l =? 0)%Z && (Max l =? 0)%Z.

Definition ImageNames := list string.

(** Modelled from the spec: the method [ImageNames.Primary] is not in
    main.go; "Primary = first element", failing on the empty list. *)
Definition Primary (ims : ImageNames) : option string := head ims.

(** Modelled from the spec: the method [ImageNames.Derive] is not in
    main.go; every name gets the registry host in front, order kept,
    failing on the empty list. *)
Definition Derive (ims : ImageNames) (registry : string) : option ImageNames :=
  match ims with
  | [] => None
  | _ => Some (map (fun im => registry +:+ "/" +:+ im) ims)
  end.

Record Preset := {
  Registry : string;
  RequestsCPU : string;
  RequestsMEM : string;
  LimitsCPU : string;
  LimitsMEM : string;
  ImagePullSecrets : list string
}.

(** The patch document. The Go struct nests
    [Spec.Template.Metadata.Annotations.Timestamp] and
    [Spec.Template.Spec.{ImagePullSecrets,InitContainers,Containers}];
    the pod-template level is one record here. *)
Module PatchImagePullSecret.
Record t := Build { Name : string }.
End PatchImagePullSecret.

Module PatchInitContainer.
Record t := Build { Image : string; Name : string; ImagePullPolicy : string }.
End PatchInitContainer.

Module PatchResourceList.
Record t := Build { CPU : string; Memory : string }.
End PatchResourceList.

Module PatchResources.
Record t := Build { Requests : PatchResourceList.t; Limits : PatchResourceList.t }.
End PatchResources.

Module PatchContainer.
Record t := Build {
  Image : string;
  Name : string;
  ImagePullPolicy : string;
  Resources : PatchResources.t
}.
(** The four assignments [container.Resources.Requests.CPU = v] etc. *)
Definition setRequestsCPU (v : string) (c : t) : t :=
  Build (Image c) (Name c) (ImagePullPolicy c)
    (PatchResources.Build
       (PatchResourceList.Build v (PatchResourceList.Memory (PatchResources.Requests (Resources c))))
       (PatchResources.Limits (Resources c))).
Definition setRequestsMemory (v : string) (c : t) : t :=
  Build (Image c) (Name c) (ImagePullPolicy c)
    (PatchResources.Build
       (PatchResourceList.Build (PatchResourceList.CPU (PatchResources.Requests (Resources c))) v)
       (PatchResources.Limits (Resources c))).
Definition setLimitsCPU (v : string) (c : t) : t :=
  Build (Image c) (Name c) (ImagePullPolicy c)
    (PatchResources.Build
       (PatchResources.Requests (Resources c))
       (PatchResourceList.Build v (PatchResourceList.Memory (PatchResources.Limits (Resources c))))).
Definition setLimitsMemory (v : string) (c : t) : t :=
  Build (Image c) (Name c) (ImagePullPolicy c)
    (PatchResources.Build
       (PatchResources.Requests (Resources c))
       (PatchResourceList.Build (PatchResourceList.CPU (PatchResources.Limits (Resources c))) v)).
End PatchContainer.

Module Patch.
Record t := Build {
  Timestamp : string;
  ImagePullSecrets : list PatchImagePullSecret.t;
  InitContainers : list PatchInitContainer.t;
  Containers : list PatchContainer.t
}.
(** [var p Patch]: the zero value. *)
Definition zero : t := Build "" [] [] [].
Definition setTimestamp (v : string) (p : t) : t :=
  Build v (ImagePullSecrets p) (InitContainers p) (Containers p).
Definition appendImagePullSecret (x : PatchImagePullSecret.t) (p : t) : t :=
  Build (Timestamp p) (ImagePullSecrets p ++ [x]) (InitContainers p) (Containers p).
Definition appendInitContainer (x : PatchInitContainer.t) (p : t) : t :=
  Build (Timestamp p) (ImagePullSecrets p) (InitContainers p ++ [x]) (Containers p).
Definition appendContainer (x : PatchContainer.t) (p : t) : t :=
  Build (Timestamp p) (ImagePullSecrets p) (InitContainers p) (Containers p ++ [x]).
End Patch.

(** ** main.go, lines 54-73: image, environment and image names *)

Definition ErrMissingParameters : error :=
  "缺少 --image 或者 --env 参数，且无法从 $JOB_NAME 获得有用信息".

(** Lines 55-67: [inl] is the early [return] with [err] set. *)
Definition resolveImageEnv (optImage optEnv JOB_NAME : string)
  : error + (string * string) :=
  if String.eqb optImage "" || String.eqb optEnv "" then
    match Split_dot JOB_NAME with
    | [part0; part1] =>
        inr (if String.eqb optImage "" then part0 else optImage,
             if String.eqb optEnv "" then part1 else optEnv)
    | _ => inl ErrMissingParameters
    end
  else inr (optImage, optEnv).

(** Lines 70-73. *)
Definition computeImageNames (optImage optEnv BUILD_NUMBER : string) : ImageNames :=
  (if negb (String.eqb BUILD_NUMBER "")
   then [optImage +:+ ":" +:+ optEnv +:+ "-build-" +:+ BUILD_NUMBER]
   else [])
  ++ [optImage +:+ ":" +:+ optEnv].

(** ** main.go, lines 157-189: the patch of one workload *)

(** Lines 171-187: the container entry of a workload that is not an init
    container: preset values first, then the two overrides. *)
Definition buildContainer (s : Preset) (optCPU optMEM : LimitOption)
    (image name : string) : PatchContainer.t :=
  let container :=
    PatchContainer.Build image name "Always"
      (PatchResources.Build (PatchResourceList.Build "" "")
                            (PatchResourceList.Build "" "")) in
  let container := PatchContainer.setRequestsCPU (RequestsCPU s) container in
  let container := PatchContainer.setRequestsMemory (RequestsMEM s) container in
  let container := PatchContainer.setLimitsCPU (LimitsCPU s) container in
  let container := PatchContainer.setLimitsMemory (LimitsMEM s) container in
  let container :=
    if negb (IsZero optCPU) then
      PatchContainer.setLimitsCPU (fmt_d (Max optCPU) +:+ "m")
        (PatchContainer.setRequestsCPU (fmt_d (Min optCPU) +:+ "m") container)
    else container in
  let container :=
    if negb (IsZero optMEM) then
      PatchContainer.setLimitsMemory (fmt_d (Max optMEM) +:+ "Mi")
        (PatchContainer.setRequestsMemory (fmt_d (Min optMEM) +:+ "Mi") container)
    else container in
  container.

(** Lines 157-189. [TrimSpace] is [strings.TrimSpace], [timestamp] the
    formatted [time.Now()], [image] is [fullImageNames.Primary()]. *)
Definition buildPatch (TrimSpace : string -> string) (timestamp : string)
    (s : Preset) (workload : Workload) (optCPU optMEM : LimitOption)
    (image : string) : Patch.t :=
  let p := Patch.zero in
  let p := Patch.setTimestamp timestamp p in
  let p :=
    fold_left
      (fun p name =>
         Patch.appendImagePullSecret (PatchImagePullSecret.Build (TrimSpace name)) p)
      (ImagePullSecrets s) p in
  if IsInit workload then
    Patch.appendInitContainer
      (PatchInitContainer.Build image (Container workload) "Always") p
  else
    Patch.appendContainer
      (buildContainer s optCPU optMEM image (Container workload)) p.

(** The four resource fields of a container entry. *)
Definition requestsCPU (c : PatchContainer.t) : string :=
  PatchResourceList.CPU (PatchResources.Requests (PatchContainer.Resources c)).
Definition requestsMemory (c : PatchContainer.t) : string :=
  PatchResourceList.Memory (PatchResources.Requests (PatchContainer.Resources c)).
Definition limitsCPU (c : PatchContainer.t) : string :=
  PatchResourceList.CPU (PatchResources.Limits (PatchContainer.Resources c)).
Definition limitsMemory (c : PatchContainer.t) : string :=
  PatchResourceList.Memory (PatchResources.Limits (PatchContainer.Resources c)).

(** ** External calls and the run state *)

(** The external operations [main] invokes, with their arguments. *)
Inductive Call :=
| CLoadManifestFile (file : string)
| CGenerateFiles (env : string)
| CExecute (file : string)
| CExecuteDockerBuild (file image : string)
| CExecuteDockerRemoveImage (image : string)
| CLoadPreset (cluster : string)
| CWriteDirFile (content prefix name : string) (exec : bool)
| CExecuteDockerTag (src dst : string)
| CExecuteDockerPush (image dcDir : string)
| CWriteFile (content prefix suffix : string) (exec : bool)
| CExecuteKubectlPatch (kubeconfig namespace name kind patch : string)
| CDeleteAll.

(** A call that was made, and the error it returned ([None] for [nil]). *)
Record Event := Ev { call : Call; outcome : option error }.

Definition Trace := list Event.

(** The collaborators. Each answer may depend on the calls made so far.
    [GenerateDockerconfig], [GenerateKubeconfig], [TrimSpace] and
    [Marshal] ([json.Marshal] of a [Patch]) are pure; [Now] is
    [time.Now().Format(time.RFC3339)]. [doGenerateFiles t m env] is
    [m.Profile(env).GenerateFiles()]. *)
Record World := {
  Manifest : Type;
  doLoadManifestFile : Trace -> string -> error + Manifest;
  doGenerateFiles : Trace -> Manifest -> string -> error + (string * string);
  doExecute : Trace -> string -> option error;
  doExecuteDockerBuild : Trace -> string -> string -> option error;
  doExecuteDockerRemoveImage : Trace -> string -> option error;
  doLoadPreset : Trace -> string -> error + Preset;
  GenerateDockerconfig : Preset -> string;
  GenerateKubeconfig : Preset -> string;
  doWriteDirFile : Trace -> string -> string -> string -> bool -> error + (string * string);
  doExecuteDockerTag : Trace -> string -> string -> option error;
  doExecuteDockerPush : Trace -> string -> string -> option error;
  doWriteFile : Trace -> string -> string -> string -> bool -> error + string;
  Now : Trace -> string;
  TrimSpace : string -> string;
  Marshal : Patch.t -> error + string;
  doExecuteKubectlPatch : Trace -> string -> string -> string -> string -> string -> option error
}.

(** The functions [main] defers. *)
Inductive Deferred := DeferExit | DeferDeleteAll | DeferRemoveImages.

(** What [main] mutates: the calls made, [usedImageNames], and the stack
    of deferred functions (most recent first). *)
Record State := {
  trace : Trace;
  usedImageNames : ImageNames;
  deferred : list Deferred
}.

(** How a piece of [main] ends: it falls through with a value, it does
    [err = e; return], or it panics (indexing an empty [ImageNames]). *)
Inductive Result (A : Type) :=
| Ok (a : A)
| Fail (e : error)
| Panic.
Arguments Ok {A} a.
Arguments Fail {A} e.
Arguments Panic {A}.

Definition M (A : Type) := State -> Result A * State.

Definition ret {A} (a : A) : M A := fun st => (Ok a, st).

Definition bind {A B} (m : M A) (f : A -> M B) : M B :=
  fun st =>
    match m st with
    | (Ok a, st') => f a st'
    | (Fail e, st') => (Fail e, st')
    | (Panic, st') => (Panic, st')
    end.

Notation "'let*' x ':=' m 'in' k" := (bind m (fun x => k))
  (at level 10, x pattern, m at level 100, k at level 200).
Notation "m ;; k" := (bind m (fun _ => k))
  (at level 100, k at level 200, right associativity).

(** [if v, err = f(); err != nil { return }] for a pure [f]. *)
Definition try {A} (r : error + A) : M A :=
  fun st => (match r with inl e => Fail e | inr a => Ok a end, st).

(** A method that fails on the empty list panics. *)
Definition must {A} (r : option A) : M A :=
  fun st => (match r with Some a => Ok a | None => Panic end, st).

Definition errOf {A} (r : error + A) : option error :=
  match r with inl e => Some e | inr _ => None end.

(** Appending a call that was made to the trace. *)
Definition record (e : Event) (st : State) : State :=
  {| trace := trace st ++ [e];
     usedImageNames := usedImageNames st;
     deferred := deferred st |}.

(** An external call with a result value: it is recorded with its
    error, and an error makes [main] return. *)
Definition extern {A} (c : Call) (ask : Trace -> error + A) : M A :=
  fun st =>
    let r := ask (trace st) in
    (match r with inl e => Fail e | inr a => Ok a end,
     record (Ev c (errOf r)) st).

(** An external command that only returns an error. *)
Definition command (c : Call) (ask : Trace -> option error) : M unit :=
  extern c (fun t => match ask t with Some e => inl e | None => inr tt end).

Definition useImage (name : string) (st : State) : State :=
  {| trace := trace st;
     usedImageNames := usedImageNames st ++ [name];
     deferred := deferred st |}.

Definition pushDeferred (d : Deferred) (st : State) : State :=
  {| trace := trace st;
     usedImageNames := usedImageNames st;
     deferred := d :: deferred st |}.

(** [usedImageNames = append(usedImageNames, name)] *)
Definition appendUsed (name : string) : M unit :=
  fun st => (Ok tt, useImage name st).

(** [defer d] *)
Definition defer (d : Deferred) : M unit :=
  fun st => (Ok tt, pushDeferred d st).

(** [for _, x := range xs { body }], where the body may [return]. *)
Fixpoint forEach {X} (xs : list X) (body : X -> M unit) : M unit :=
  match xs with
  | [] => ret tt
  | x :: xs' => body x ;; forEach xs' body
  end.

(** The command-line flags after [flag.Parse()]. *)
Record Options := {
  optManifest : string;
  optImage : string;
  optEnv : string;
  optWorkloads : WorkloadOptions;
  optCPU : LimitOption;
  optMEM : LimitOption;
  optSkipDeploy : bool
}.

Section Main.
Variable W : World.
Variable opts : Options.
Variable environ : gmap string string.

Definition LoadManifestFile (file : string) : M (Manifest W) :=
  extern (CLoadManifestFile file) (fun t => doLoadManifestFile W t file).
Definition GenerateFiles (m : Manifest W) (env : string) : M (string * string) :=
  extern (CGenerateFiles env) (fun t => doGenerateFiles W t m env).
Definition Execute (file : string) : M unit :=
  command (CExecute file) (fun t => doExecute W t file).
Definition ExecuteDockerBuild (file image : string) : M unit :=
  command (CExecuteDockerBuild file image) (fun t => doExecuteDockerBuild W t file image).
Definition LoadPreset (cluster : string) : M Preset :=
  extern (CLoadPreset cluster) (fun t => doLoadPreset W t cluster).
Definition WriteDirFile (content prefix name : string) (exec : bool)
  : M (string * string) :=
  extern (CWriteDirFile content prefix name exec)
         (fun t => doWriteDirFile W t content prefix name exec).
Definition ExecuteDockerTag (src dst : string) : M unit :=
  command (CExecuteDockerTag src dst) (fun t => doExecuteDockerTag W t src dst).
Definition ExecuteDockerPush (image dcDir : string) : M unit :=
  command (CExecuteDockerPush image dcDir) (fun t => doExecuteDockerPush W t image dcDir).
Definition WriteFile (content prefix suffix : string) (exec : bool) : M string :=
  extern (CWriteFile content prefix suffix exec)
         (fun t => doWriteFile W t content prefix suffix exec).
Definition ExecuteKubectlPatch (kubeconfig namespace name kind patch : string) : M unit :=
  command (CExecuteKubectlPatch kubeconfig namespace name kind patch)
          (fun t => doExecuteKubectlPatch W t kubeconfig namespace name kind patch).
Definition timeNow : M string := fun st => (Ok (Now W (trace st)), st).

(** Lines 132-144: tag and push every derived name. *)
Definition pushImages (imageNames fullImageNames : ImageNames) (dcDir : string) : M unit :=
  forEach fullImageNames (fun fullImageName =>
    let* primary := must (Primary imageNames) in
    ExecuteDockerTag primary fullImageName ;;
    appendUsed fullImageName ;;
    ExecuteDockerPush fullImageName dcDir).

(** Lines 150-198: the patch stage of one workload. *)
Definition patchWorkload (s : Preset) (fullImageNames : ImageNames)
    (workload : Workload) : M unit :=
  let* fileKubeconfig := WriteFile (GenerateKubeconfig W s) "deployer-kubeconfig" ".yml" false in
  let* timestamp := timeNow in
  let* image := must (Primary fullImageNames) in
  let p := buildPatch (TrimSpace W) timestamp s workload (optCPU opts) (optMEM opts) image in
  let* buf := try (Marshal W p) in
  ExecuteKubectlPatch fileKubeconfig (Namespace workload) (Namespace workload)
                      (Type_ workload) buf.

(** Lines 112-198: the body of the loop over [optWorkloads];
    [continue] ends the body without an error. *)
Definition deployWorkload (imageNames : ImageNames) (workload : Workload) : M unit :=
  let* s := LoadPreset (Cluster workload) in
  let* fullImageNames := must (Derive imageNames (Registry s)) in
  let* (dcDir, dcFile) := WriteDirFile (GenerateDockerconfig W s)
                        "deployer-dockerconfig" "config.json" false in
  pushImages imageNames fullImageNames dcDir ;;
  if optSkipDeploy opts then ret tt
  else patchWorkload s fullImageNames workload.

(** Lines 25-108: everything before the loop over the workloads;
    the result is [imageNames]. *)
Definition package : M ImageNames :=
  defer DeferExit ;;
  defer DeferDeleteAll ;;
  let* (image, env) := try (resolveImageEnv (optImage opts) (optEnv opts)
                                            (Getenv environ "JOB_NAME")) in
  let imageNames := computeImageNames image env (Getenv environ "BUILD_NUMBER") in
  let* m := LoadManifestFile (optManifest opts) in
  let* (fileBuild, filePackage) := GenerateFiles m env in
  Execute fileBuild ;;
  let* primary := must (Primary imageNames) in
  ExecuteDockerBuild filePackage primary ;;
  let* primary := must (Primary imageNames) in
  appendUsed primary ;;
  defer DeferRemoveImages ;;
  ret imageNames.

(** Lines 25-199 of [main], up to its return. *)
Definition mainBody : M unit :=
  let* imageNames := package in
  forEach (optWorkloads opts) (deployWorkload imageNames).

(** Lines 103-108: the deferred image cleanup; errors are dropped. *)
Fixpoint removeImages (names : ImageNames) (t : Trace) : Trace :=
  match names with
  | [] => t
  | imageName :: rest =>
      removeImages rest
        (t ++ [Ev (CExecuteDockerRemoveImage imageName)
                  (doExecuteDockerRemoveImage W t imageName)])
  end.

(** Lines 15-22: [exit(&err)] ends the process with status 1 when
    [err] is set, and returns otherwise. *)
Definition exit (err : option error) : option Z :=
  match err with Some _ => Some 1%Z | None => None end.

Definition errOfResult (r : Result unit) : option error :=
  match r with Fail e => Some e | _ => None end.

(** Deferred functions run last-registered first; [os.Exit] ends the
    process, so nothing deferred runs after it. The result is the
    trace and the exit status chosen by [exit], if any. *)
Fixpoint runDeferred (ds : list Deferred) (r : Result unit)
    (used : ImageNames) (t : Trace) : Trace * option Z :=
  match ds with
  | [] => (t, None)
  | DeferRemoveImages :: ds' => runDeferred ds' r used (removeImages used t)
  | DeferDeleteAll :: ds' => runDeferred ds' r used (t ++ [Ev CDeleteAll None])
  | DeferExit :: ds' =>
      match exit (errOfResult r) with
      | Some code => (t, Some code)
      | None => runDeferred ds' r used t
      end
  end.

(** A finished process. *)
Record Run := {
  run_trace : Trace;
  run_used : ImageNames;
  run_err : option error;
  run_panicked : bool;
  exit_code : Z
}.

(** Nothing called, nothing used, nothing deferred. *)
Definition start : State := {| trace := []; usedImageNames := []; deferred := [] |}.

(** The whole of [main]: the body, then the deferred functions; a
    normal return of [main] is status 0, an unrecovered panic 2. *)
Definition main : Run :=
  let '(r, st) := mainBody start in
  let '(t, code) := runDeferred (deferred st) r (usedImageNames st) (trace st) in
  let panicked := match r with Panic => true | _ => false end in
  {| run_trace := t;
     run_used := usedImageNames st;
     run_err := errOfResult r;
     run_panicked := panicked;
     exit_code :=
       match code with
       | Some c => c
       | None => if panicked then 2%Z else 0%Z
       end |}.
End Main.

(** ** A concrete world for examples *)

Module Demo.
Definition isSpace (c : ascii) : bool :=
  match c with
  | " "%char | "009"%char | "010"%char | "011"%char | "012"%char | "013"%char => true
  | _ => false
  end.

Fixpoint trimLeft (s : string) : string :=
  match s with
  | String c s' => if isSpace c then trimLeft s' else s
  | EmptyString => EmptyString
  end.

Fixpoint trimRight (s : string) : string :=
  match s with
  | String c s' =>
      match trimRight s' with
      | EmptyString => if isSpace c then EmptyString else String c EmptyString
      | rest => String c rest
      end
  | EmptyString => EmptyString
  end.

(** [strings.TrimSpace] on ASCII text. *)
Definition trimSpace (s : string) : string := trimRight (trimLeft s).

Definition preset (cluster : string) : Preset :=
  {| Registry := "reg." +:+ cluster;
     RequestsCPU := "100m"; RequestsMEM := "256Mi";
     LimitsCPU := "200m"; LimitsMEM := "512Mi";
     ImagePullSecrets := [" regcred "] |}.

(** A rendering of the patch that keeps the image, the name and the
    resources of every entry apart. *)
Definition marshal (p : Patch.t) : string :=
  "{ts=" +:+ Patch.Timestamp p +:+ ";secrets=" +:+
  String.concat "," (map PatchImagePullSecret.Name (Patch.ImagePullSecrets p)) +:+
  ";init=" +:+
  String.concat "," (map (fun c => PatchInitContainer.Name c +:+ "@" +:+ PatchInitContainer.Image c)
                         (Patch.InitContainers p)) +:+
  ";containers=" +:+
  String.concat ","
    (map (fun c =>
            PatchContainer.Name c +:+ "@" +:+ PatchContainer.Image c +:+ "[" +:+
            PatchResourceList.CPU (PatchResources.Requests (PatchContainer.Resources c)) +:+ "/" +:+
            PatchResourceList.Memory (PatchResources.Requests (PatchContainer.Resources c)) +:+ "," +:+
            PatchResourceList.CPU (PatchResources.Limits (PatchContainer.Resources c)) +:+ "/" +:+
            PatchResourceList.Memory (PatchResources.Limits (PatchContainer.Resources c)) +:+ "]")
         (Patch.Containers p)) +:+ "}".

Definition answer {A} (e : option error) (a : A) : error + A :=
  match e with Some msg => inl msg | None => inr a end.

(** Every call succeeds unless [fails] names an error for it, given
    the calls made before. *)
Definition world (fails : Trace -> Call -> option error) : World :=
  {| Manifest := unit;
     doLoadManifestFile t file := answer (fails t (CLoadManifestFile file)) tt;
     doGenerateFiles t _ env :=
       answer (fails t (CGenerateFiles env)) ("/tmp/build.sh", "/tmp/Dockerfile");
     doExecute t file := fails t (CExecute file);
     doExecuteDockerBuild t file image := fails t (CExecuteDockerBuild file image);
     doExecuteDockerRemoveImage t image := fails t (CExecuteDockerRemoveImage image);
     doLoadPreset t cluster := answer (fails t (CLoadPreset cluster)) (preset cluster);
     GenerateDockerconfig s := "auth:" +:+ Registry s;
     GenerateKubeconfig s := "kube:" +:+ Registry s;
     doWriteDirFile t content prefix name exec :=
       answer (fails t (CWriteDirFile content prefix name exec))
              ("/tmp/" +:+ prefix, "/tmp/" +:+ prefix +:+ "/" +:+ name);
     doExecuteDockerTag t src dst := fails t (CExecuteDockerTag src dst);
     doExecuteDockerPush t image dcDir := fails t (CExecuteDockerPush image dcDir);
     doWriteFile t content prefix suffix exec :=
       answer (fails t (CWriteFile content prefix suffix exec))
              ("/tmp/" +:+ prefix +:+ suffix);
     Now _ := "2020-01-02T03:04:05Z";
     TrimSpace := trimSpace;
     Marshal p := inr (marshal p);
     doExecuteKubectlPatch t kubeconfig namespace name kind patch :=
       fails t (CExecuteKubectlPatch kubeconfig namespace name kind patch) |}.

Definition allFine : Trace -> Call -> option error := fun _ _ => None.

(** The push to cluster [b]'s registry fails. *)
Definition pushToBFails : Trace -> Call -> option error :=
  fun _ c =>
    match c with
    | CExecuteDockerPush image _ =>
        if String.prefix "reg.b/" image then Some "push failed" else None
    | _ => None
    end.

Definition workload (cluster name : string) (isInit : bool) : Workload :=
  {| Cluster := cluster; Namespace := "ns"; Type_ := "deployment";
     Name := name; Container := "app"; IsInit := isInit |}.

Definition noLimit : LimitOption := {| Min := 0%Z; Max := 0%Z |}.

Definition options (image env : string) (workloads : WorkloadOptions)
    (skip : bool) : Options :=
  {| optManifest := "deployer.yml"; optImage := image; optEnv := env;
     optWorkloads := workloads; optCPU := noLimit; optMEM := noLimit;
     optSkipDeploy := skip |}.

Definition environ (job build : string) : gmap string string :=
  <["JOB_NAME" := job]> (<["BUILD_NUMBER" := build]> ∅).

(** Three workloads; the push for the second one fails. *)
Definition failedPushRun : Run :=
  main (world pushToBFails)
       (options "svc" "prod"
          [workload "a" "web" false; workload "b" "job" true; workload "c" "api" false]
          false)
       (environ "" "").

(** Two workloads with [--skip-deploy]. *)
Definition skipDeployRun : Run :=
  main (world allFine)
       (options "svc" "prod" [workload "a" "web" false; workload "b" "job" true] true)
       (environ "" "").

(** Two workloads on the same cluster. *)
Definition sameClusterRun : Run :=
  main (world allFine)
       (options "svc" "prod" [workload "a" "web" false; workload "a" "worker" false] false)
       (environ "" "").
End Demo.

(** ** Observations on traces *)

Definition succeeded (e : Event) : bool :=
  match outcome e with None => true | Some _ => false end.

(** The two cleanup actions: image removal and temporary-file removal. *)
Definition isCleanup (e : Event) : bool :=
  match call e with
  | CExecuteDockerRemoveImage _ | CDeleteAll => true
  | _ => false
  end.

(** Targets of the docker-tag calls that succeeded. *)
Definition tagged (t : Trace) : list string :=
  flat_map (fun e => match e with
                     | Ev (CExecuteDockerTag _ dst) None => [dst]
                     | _ => []
                     end) t.

(** Images of the docker-push calls, failed ones too. *)
Definition pushed (t : Trace) : list string :=
  flat_map (fun e => match call e with
                     | CExecuteDockerPush image _ => [image]
                     | _ => []
                     end) t.

(** Images handed to the image-removal executor. *)
Definition removed (t : Trace) : list string :=
  flat_map (fun e => match call e with
                     | CExecuteDockerRemoveImage image => [image]
                     | _ => []
                     end) t.

(** Clusters handed to [LoadPreset]. *)
Definition loaded (t : Trace) : list string :=
  flat_map (fun e => match call e with
                     | CLoadPreset cluster => [cluster]
                     | _ => []
                     end) t.

(** The calls of the cluster-patch executor. *)
Definition patchCalls (t : Trace) : list Call :=
  flat_map (fun e => match call e with
                     | CExecuteKubectlPatch _ _ _ _ _ as c => [c]
                     | _ => []
                     end) t.

(** Images handed to the image builder by calls that succeeded. *)
Definition built (t : Trace) : list string :=
  flat_map (fun e => match e with
                     | Ev (CExecuteDockerBuild _ image) None => [image]
                     | _ => []
                     end) t.

(** The calls the loop over the workloads can make: the per-workload
    stages, without the patch stage under [--skip-deploy]. *)
Definition loopCall (skip : bool) (e : Event) : bool :=
  match call e with
  | CLoadPreset _ | CWriteDirFile _ _ _ _ | CExecuteDockerTag _ _
  | CExecuteDockerPush _ _ => true
  | CWriteFile _ _ _ _ | CExecuteKubectlPatch _ _ _ _ _ => negb skip
  | _ => false
  end.

(** A docker-tag call that succeeded. *)
Definition taggedOk (e : Event) : bool :=
  match e with
  | Ev (CExecuteDockerTag _ _) None => true
  | _ => false
  end.

(** A docker-push call; a call of the cluster-patch executor. *)
Definition isPush (e : Event) : bool :=
  match call e with
  | CExecuteDockerPush _ _ => true
  | _ => false
  end.

Definition isPatch (e : Event) : bool :=
  match call e with
  | CExecuteKubectlPatch _ _ _ _ _ => true
  | _ => false
  end.

(** The calls made before the loop over the workloads. *)
Definition isPackageCall (e : Event) : bool :=
  match call e with
  | CLoadManifestFile _ | CGenerateFiles _ | CExecute _
  | CExecuteDockerBuild _ _ => true
  | _ => false
  end.

(** Every call but the last one succeeded. *)
Definition failsLast (t : Trace) : bool := forallb succeeded (removelast t).

(** What holds when a piece of the loop ends, if every call before it
    succeeded: falling through, every call succeeded; returning an
    error, every call but the last succeeded; and it does not panic. *)
Definition failFast {A} (r : Result A) (st : State) : Prop :=
  match r with
  | Ok _ => forallb succeeded (trace st) = true
  | Fail _ => failsLast (trace st) = true
  | Panic => False
  end.

(** Through the loop, [usedImageNames] is the primary name followed by
    the targets of the successful docker-tag calls; every name handed
    to docker-push was tagged before; nothing is removed or built. *)
Definition usedInv (primary : string) (st : State) : Prop :=
  usedImageNames st = primary :: tagged (trace st) /\
  incl (pushed (trace st)) (tagged (trace st)) /\
  removed (trace st) = [] /\
  built (trace st) = [primary].

(** The image names of a run: [imageNames] of [main]. *)
Definition runImageNames (opts : Options) (environ : gmap string string) : ImageNames :=
  match resolveImageEnv (optImage opts) (optEnv opts) (Getenv environ "JOB_NAME") with
  | inr (image, env) => computeImageNames image env (Getenv environ "BUILD_NUMBER")
  | inl _ => []
  end.

(** A successful tag followed by a successful push, for each name. *)
Definition pushCalls (primary dcDir : string) (fullImageNames : ImageNames) : Trace :=
  flat_map (fun full => [Ev (CExecuteDockerTag primary full) None;
                         Ev (CExecuteDockerPush full dcDir) None])
           fullImageNames.

(** The calls of a workload whose push stages all succeeded: its
    cluster's preset is loaded, the docker configuration of that preset
    is written, and every image name derived for the preset's registry
    is tagged from the primary name and pushed. *)
Definition pushStages (W : World) (imageNames : ImageNames)
    (workload : Workload) (calls : Trace) : Prop :=
  exists s primary fullImageNames dcDir,
    Primary imageNames = Some primary /\
    Derive imageNames (Registry s) = Some fullImageNames /\
    calls =
      Ev (CLoadPreset (Cluster workload)) None
      :: Ev (CWriteDirFile (GenerateDockerconfig W s)
                           "deployer-dockerconfig" "config.json" false) None
      :: pushCalls primary dcDir fullImageNames.

(** A call of the cluster-patch executor as line 196 makes it for a
    workload: the workload's namespace is passed twice, as the namespace
    and as the resource name, then the workload's type and the
    serialized patch, built for the primary name derived for the
    registry of a preset. *)
Definition patchCallOf (W : World) (opts : Options) (imageNames : ImageNames)
    (c : Call) : Prop :=
  exists workload s fullImageNames timestamp image fileKubeconfig buf,
    In workload (optWorkloads opts) /\
    Derive imageNames (Registry s) = Some fullImageNames /\
    Primary fullImageNames = Some image /\
    Marshal W (buildPatch (TrimSpace W) timestamp s workload
                          (optCPU opts) (optMEM opts) image) = inr buf /\
    c = CExecuteKubectlPatch fileKubeconfig (Namespace workload)
                             (Namespace workload) (Type_ workload) buf.

(** ** Weakest preconditions for the pieces of [main] *)

Definition wp {A} (m : M A) (Q : Result A -> State -> Prop) (st : State) : Prop :=
  Q (fst (m st)) (snd (m st)).

(** What a [bind] asks of its first part. *)
Definition andThen {A B} (f : A -> M B) (Q : Result B -> State -> Prop)
  : Result A -> State -> Prop :=
  fun r st =>
    match r with
    | Ok a => wp (f a) Q st
    | Fail e => Q (Fail e) st
    | Panic => Q Panic st
    end.

(** What a loop body asks: the invariant for the rest, or the loop's
    postcondition where the body returns early. *)
Definition orLeave {X} (I : list X -> State -> Prop)
    (Q : Result unit -> State -> Prop) (rest : list X)
  : Result unit -> State -> Prop :=
  fun r st =>
    match r with
    | Ok _ => I rest st
    | Fail e => Q (Fail e) st
    | Panic => Q Panic st
    end.

(** ** Further observations *)

(** Whether a string contains a dot. *)
Fixpoint hasDot (s : string) : bool :=
  match s with
  | EmptyString => false
  | String c s' => Ascii.eqb c "."%char || hasDot s'
  end.

(** The world [W] with another answer of the image-removal executor. *)
Definition withRemoveImage (W : World)
    (answer : Trace -> string -> option error) : World :=
  {| Manifest := Manifest W;
     doLoadManifestFile := doLoadManifestFile W;
     doGenerateFiles := doGenerateFiles W;
     doExecute := doExecute W;
     doExecuteDockerBuild := doExecuteDockerBuild W;
     doExecuteDockerRemoveImage := answer;
     doLoadPreset := doLoadPreset W;
     GenerateDockerconfig := GenerateDockerconfig W;
     GenerateKubeconfig := GenerateKubeconfig W;
     doWriteDirFile := doWriteDirFile W;
     doExecuteDockerTag := doExecuteDockerTag W;
     doExecuteDockerPush := doExecuteDockerPush W;
     doWriteFile := doWriteFile W;
     Now := Now W;
     TrimSpace := TrimSpace W;
     Marshal := Marshal W;
     doExecuteKubectlPatch := doExecuteKubectlPatch W |}.

(** What holds when a piece of [main] ends, if every call before it
    succeeded: when it returns an error and its last call failed, the
    error is the one that call returned. *)
Definition reports {A} (r : Result A) (st : State) : Prop :=
  match r with
  | Ok _ => forallb succeeded (trace st) = true
  | Fail e =>
      forallb succeeded (trace st) = true \/
      exists t c, trace st = t ++ [Ev c (Some e)] /\ forallb succeeded t = true
  | Panic => False
  end.

(** Every docker-push call comes directly after a successful docker-tag
    call onto the image it pushes. *)
Definition pushAfterTag (t : Trace) : Prop :=
  forall pre image dcDir o post,
    t = pre ++ Ev (CExecuteDockerPush image dcDir) o :: post ->
    exists pre' src, pre = pre' ++ [Ev (CExecuteDockerTag src image) None].


(** The calls that write a file with [tempfile.WriteFile]. *)
Definition fileWrites (t : Trace) : list Call :=
  flat_map (fun e => match call e with
                     | CWriteFile _ _ _ _ as c => [c]
                     | _ => []
                     end) t.

(** Sources of the docker-tag calls, failed ones too. *)
Definition tagSources (t : Trace) : list string :=
  flat_map (fun e => match call e with
                     | CExecuteDockerTag src _ => [src]
                     | _ => []
                     end) t.

(** ** [strings.Split] on dots *)

Lemma Split_dot_nonempty (s : string) : Split_dot s <> [].
Proof.
  destruct s as [|c s]; simpl; [discriminate|].
  destruct (Ascii.eqb c "."); [discriminate|].
  destruct (Split_dot s); discriminate.
Qed.

(** Joining the pieces with dots gives the string back. *)
Lemma Split_dot_concat (s : string) : String.concat "." (Split_dot s) = s.
Proof.
  induction s as [|c s IH]; [reflexivity|].
  simpl. destruct (Ascii.eqb_spec c ".") as [->|Hc].
  - pose proof (Split_dot_nonempty s) as Hne.
    change (String.concat "." (EmptyString :: Split_dot s)) with
      (match Split_dot s with
       | [] => EmptyString
       | _ => EmptyString +:+ "." +:+ String.concat "." (Split_dot s)
       end).
    destruct (Split_dot s) eqn:E; [contradiction|].
    simpl. simpl in IH. now rewrite IH.
  - pose proof (Split_dot_nonempty s) as Hne.
    destruct (Split_dot s) as [|piece rest] eqn:E; [contradiction|].
    simpl in *. destruct rest; simpl in *; now rewrite <- IH.
Qed.

Example Split_dot_examples :
  Split_dot "app.staging" = ["app"; "staging"] /\
  Split_dot "" = [""] /\ Split_dot "a.b.c" = ["a"; "b"; "c"] /\
  Split_dot "a." = ["a"; ""] /\ Split_dot "nodots" = ["nodots"].
Proof. repeat split; reflexivity. Qed.

Example fmt_d_examples :
  fmt_d 50 = "50" /\ fmt_d 0 = "0" /\ fmt_d (-7) = "-7" /\ fmt_d 1024 = "1024".
Proof. repeat split; reflexivity. Qed.

(** ** Image, environment and image names *)

Lemma resolveImageEnv_flags (image env job : string) :
  image <> "" -> env <> "" -> resolveImageEnv image env job = inr (image, env).
Proof.
  intros Hi He. unfold resolveImageEnv.
  apply String.eqb_neq in Hi, He. now rewrite Hi, He.
Qed.

Lemma resolveImageEnv_fails (image env job : string) :
  image = "" \/ env = "" ->
  length (Split_dot job) <> 2%nat ->
  resolveImageEnv image env job = inl ErrMissingParameters.
Proof.
  intros Hmiss Hlen. unfold resolveImageEnv.
  assert (String.eqb image "" || String.eqb env "" = true) as ->.
  { destruct Hmiss as [->| ->]; [reflexivity|]. apply orb_true_r. }
  destruct (Split_dot job) as [|a [|b [|c l]]]; try reflexivity.
  now contradiction Hlen.
Qed.

(** C10: with exactly one of [--image]/[--env] given and a two-part
    JOB_NAME, the given flag is kept and the other value is the matching
    JOB_NAME part; with one value missing, resolution fails exactly when
    JOB_NAME does not split into two parts. *)
Theorem resolveImageEnv_one_flag (image env job : string) :
  (image = "" /\ env <> "") \/ (image <> "" /\ env = "") ->
  (forall part0 part1, Split_dot job = [part0; part1] ->
     (env = "" -> resolveImageEnv image env job = inr (image, part1)) /\
     (image = "" -> resolveImageEnv image env job = inr (part0, env))) /\
  (resolveImageEnv image env job = inl ErrMissingParameters <->
   length (Split_dot job) <> 2%nat).
Proof.
  intros Hone.
  assert (String.eqb image "" || String.eqb env "" = true) as Hor.
  { destruct Hone as [[-> _]|[_ ->]]; [reflexivity|apply orb_true_r]. }
  split.
  - intros part0 part1 Hsplit. unfold resolveImageEnv. rewrite Hor, Hsplit.
    split; intros ->.
    + destruct Hone as [[_ Hne]|[Hne _]]; [now contradiction Hne|].
      apply String.eqb_neq in Hne. now rewrite Hne.
    + destruct Hone as [[_ Hne]|[Hne _]]; [|now contradiction Hne].
      apply String.eqb_neq in Hne. now rewrite Hne.
  - split.
    + unfold resolveImageEnv. rewrite Hor.
      destruct (Split_dot job) as [|a [|b [|c l]]]; simpl; try discriminate.
      all: intros _; discriminate.
    + apply resolveImageEnv_fails. destruct Hone as [[-> _]|[_ ->]]; auto.
Qed.

Lemma resolveImageEnv_one_flag_witness :
  (("" = "" /\ "staging" <> "") \/ ("" <> "" /\ "staging" = "")) /\
  resolveImageEnv "" "staging" "app.prod" = inr ("app", "staging") /\
  (resolveImageEnv "" "staging" "a.b.c" = inl ErrMissingParameters <->
   length (Split_dot "a.b.c") <> 2%nat).
Proof.
  assert (("" = "" /\ "staging" <> "") \/ ("" <> "" /\ "staging" = "")) as H
    by (left; split; [reflexivity|discriminate]).
  split; [exact H|]. split.
  - apply (proj1 (resolveImageEnv_one_flag "" "staging" "app.prod" H) "app" "prod");
      reflexivity.
  - apply (proj2 (resolveImageEnv_one_flag "" "staging" "a.b.c" H)).
Defined.

(** C3: the image names are the build-numbered tag followed by the plain
    environment tag when BUILD_NUMBER is set and not empty, and the plain
    tag alone otherwise; the primary name is the first of them. *)
Theorem computeImageNames_build_number (I E : string) (environ : gmap string string) :
  let names := computeImageNames I E (Getenv environ "BUILD_NUMBER") in
  (forall B, environ !! "BUILD_NUMBER" = Some B -> B <> "" ->
     names = [I +:+ ":" +:+ E +:+ "-build-" +:+ B; I +:+ ":" +:+ E] /\
     Primary names = Some (I +:+ ":" +:+ E +:+ "-build-" +:+ B)) /\
  (environ !! "BUILD_NUMBER" = None \/ environ !! "BUILD_NUMBER" = Some "" ->
     names = [I +:+ ":" +:+ E] /\ Primary names = Some (I +:+ ":" +:+ E)).
Proof.
  unfold computeImageNames, Getenv. split.
  - intros B -> HB. simpl. apply String.eqb_neq in HB. rewrite HB. now simpl.
  - intros [-> | ->]; now simpl.
Qed.

Lemma computeImageNames_build_number_witness :
  (Demo.environ "svc.prod" "42" !! "BUILD_NUMBER" = Some "42" /\ "42" <> "") /\
  computeImageNames "svc" "prod" (Getenv (Demo.environ "svc.prod" "42") "BUILD_NUMBER")
    = ["svc:prod-build-42"; "svc:prod"] /\
  ((∅ : gmap string string) !! "BUILD_NUMBER" = None) /\
  computeImageNames "svc" "prod" (Getenv ∅ "BUILD_NUMBER") = ["svc:prod"].
Proof.
  assert (Demo.environ "svc.prod" "42" !! "BUILD_NUMBER" = Some "42") as Hget
    by (vm_compute; reflexivity).
  assert ("42" <> "") as Hne by discriminate.
  split; [split; assumption|]. split.
  - exact (proj1 (proj1 (computeImageNames_build_number "svc" "prod"
                           (Demo.environ "svc.prod" "42")) "42" Hget Hne)).
  - split; [reflexivity|].
    exact (proj1 (proj2 (computeImageNames_build_number "svc" "prod" ∅)
                        (or_introl eq_refl))).
Defined.

Lemma computeImageNames_Primary (I E B : string) :
  exists primary, Primary (computeImageNames I E B) = Some primary.
Proof. unfold computeImageNames. destruct (negb (String.eqb B "")); simpl; eauto. Qed.

(** ** The patch document *)

(** Appending pull secrets leaves the other parts of the patch alone. *)
Lemma fold_secrets (trim : string -> string) (names : list string) (p : Patch.t) :
  let p' := fold_left
              (fun p name =>
                 Patch.appendImagePullSecret (PatchImagePullSecret.Build (trim name)) p)
              names p in
  Patch.Timestamp p' = Patch.Timestamp p /\
  Patch.InitContainers p' = Patch.InitContainers p /\
  Patch.Containers p' = Patch.Containers p /\
  Patch.ImagePullSecrets p' =
    Patch.ImagePullSecrets p ++ map (fun name => PatchImagePullSecret.Build (trim name)) names.
Proof.
  revert p. induction names as [|name names IH]; intros p; simpl.
  - now rewrite app_nil_r.
  - destruct (IH (Patch.appendImagePullSecret (PatchImagePullSecret.Build (trim name)) p))
      as (Ht & Hi & Hc & Hs).
    simpl in *. rewrite Ht, Hi, Hc, Hs, <- app_assoc. now simpl.
Qed.

Lemma buildPatch_containers (trim : string -> string) (timestamp : string)
    (s : Preset) (workload : Workload) (cpu mem : LimitOption) (image : string) :
  let p := buildPatch trim timestamp s workload cpu mem image in
  if IsInit workload then
    Patch.InitContainers p =
      [PatchInitContainer.Build image (Container workload) "Always"] /\
    Patch.Containers p = []
  else
    Patch.InitContainers p = [] /\
    Patch.Containers p = [buildContainer s cpu mem image (Container workload)].
Proof.
  unfold buildPatch.
  destruct (fold_secrets trim (ImagePullSecrets s)
              (Patch.setTimestamp timestamp Patch.zero)) as (_ & Hi & Hc & _).
  simpl in Hi, Hc.
  destruct (IsInit workload); simpl; rewrite Hi, Hc; now simpl.
Qed.

(** C2: in the container entry of a workload that is not an init
    container, CPU and memory are decided separately: a non-zero override
    gives request ["<min>m"] / ["<min>Mi"] and limit ["<max>m"] /
    ["<max>Mi"]; a zero override leaves the preset's request and limit of
    that dimension. *)
Theorem buildPatch_resources (trim : string -> string) (timestamp : string)
    (s : Preset) (workload : Workload) (cpu mem : LimitOption) (image : string) :
  IsInit workload = false ->
  exists c,
    Patch.Containers (buildPatch trim timestamp s workload cpu mem image) = [c] /\
    (IsZero cpu = false ->
       requestsCPU c = fmt_d (Min cpu) +:+ "m" /\ limitsCPU c = fmt_d (Max cpu) +:+ "m") /\
    (IsZero cpu = true ->
       requestsCPU c = RequestsCPU s /\ limitsCPU c = LimitsCPU s) /\
    (IsZero mem = false ->
       requestsMemory c = fmt_d (Min mem) +:+ "Mi" /\
       limitsMemory c = fmt_d (Max mem) +:+ "Mi") /\
    (IsZero mem = true ->
       requestsMemory c = RequestsMEM s /\ limitsMemory c = LimitsMEM s).
Proof.
  intros Hinit.
  pose proof (buildPatch_containers trim timestamp s workload cpu mem image) as H.
  rewrite Hinit in H. destruct H as [_ Hc].
  eexists. split; [exact Hc|].
  unfold buildContainer, requestsCPU, limitsCPU, requestsMemory, limitsMemory.
  split; [|split; [|split]]; intros Hz; rewrite Hz; simpl;
    destruct (IsZero cpu), (IsZero mem); try discriminate; split; reflexivity.
Qed.

(** The example of the specification: preset 100m/256Mi, 200m/512Mi and
    [--cpu 50:150]. *)
Lemma buildPatch_resources_witness :
  IsInit (Demo.workload "a" "web" false) = false /\
  IsZero {| Min := 50; Max := 150 |} = false /\
  IsZero Demo.noLimit = true /\
  exists c,
    Patch.Containers
      (buildPatch Demo.trimSpace "2020-01-02T03:04:05Z" (Demo.preset "a")
         (Demo.workload "a" "web" false) {| Min := 50; Max := 150 |} Demo.noLimit
         "reg.a/svc:prod") = [c] /\
    requestsCPU c = "50m" /\ limitsCPU c = "150m" /\
    requestsMemory c = "256Mi" /\ limitsMemory c = "512Mi".
Proof.
  split; [reflexivity|]. split; [reflexivity|]. split; [reflexivity|].
  destruct (buildPatch_resources Demo.trimSpace "2020-01-02T03:04:05Z" (Demo.preset "a")
              (Demo.workload "a" "web" false) {| Min := 50; Max := 150 |} Demo.noLimit
              "reg.a/svc:prod" eq_refl) as (c & Hc & Hcpu & _ & _ & Hmem).
  exists c. split; [exact Hc|].
  destruct (Hcpu eq_refl) as [-> ->]. destruct (Hmem eq_refl) as [-> ->].
  repeat split; reflexivity.
Defined.



(** The image of a patch is the primary name with the registry in front. *)
Lemma Derive_Primary (imageNames full : ImageNames) (registry primary : string) :
  Derive imageNames registry = Some full ->
  Primary imageNames = Some primary ->
  Primary full = Some (registry +:+ "/" +:+ primary) /\
  length full = length imageNames.
Proof.
  destruct imageNames as [|im rest]; simpl; [discriminate|].
  intros [= <-] [= <-]. simpl. now rewrite length_map.
Qed.

(** ** Rules of the weakest precondition *)

Section Rules.
Context {A B : Type}.

Lemma wp_ret (a : A) Q st : Q (Ok a) st -> wp (ret a) Q st.
Proof. exact (fun H => H). Qed.

Lemma wp_bind (m : M A) (f : A -> M B) Q st :
  wp m (andThen f Q) st -> wp (bind m f) Q st.
Proof.
  unfold wp, andThen, bind. destruct (m st) as [[a|e|] st']; simpl; auto.
Qed.

Lemma wp_try (r : error + A) Q st :
  (forall a, r = inr a -> Q (Ok a) st) ->
  (forall e, r = inl e -> Q (Fail e) st) ->
  wp (try r) Q st.
Proof. unfold wp, try. destruct r; simpl; auto. Qed.

Lemma wp_must (r : option A) Q st :
  (forall a, r = Some a -> Q (Ok a) st) ->
  (r = None -> Q Panic st) ->
  wp (must r) Q st.
Proof. unfold wp, must. destruct r; simpl; auto. Qed.

Lemma wp_extern (c : Call) (ask : Trace -> error + A) Q st :
  (forall a, ask (trace st) = inr a -> Q (Ok a) (record (Ev c None) st)) ->
  (forall e, ask (trace st) = inl e -> Q (Fail e) (record (Ev c (Some e)) st)) ->
  wp (extern c ask) Q st.
Proof. unfold wp, extern. simpl. destruct (ask (trace st)); simpl; auto. Qed.

Lemma wp_mono (m : M A) (Q Q' : Result A -> State -> Prop) st :
  (forall r st', Q r st' -> Q' r st') -> wp m Q st -> wp m Q' st.
Proof. unfold wp. auto. Qed.

End Rules.

Lemma wp_command (c : Call) (ask : Trace -> option error) Q st :
  (ask (trace st) = None -> Q (Ok tt) (record (Ev c None) st)) ->
  (forall e, ask (trace st) = Some e -> Q (Fail e) (record (Ev c (Some e)) st)) ->
  wp (command c ask) Q st.
Proof.
  intros Hok Hfail. unfold command. apply wp_extern.
  - intros [] H. destruct (ask (trace st)); [discriminate|auto].
  - intros e H. destruct (ask (trace st)) as [e'|]; [|discriminate].
    injection H as ->. auto.
Qed.

Lemma wp_appendUsed (name : string) Q st :
  Q (Ok tt) (useImage name st) -> wp (appendUsed name) Q st.
Proof. exact (fun H => H). Qed.

Lemma wp_defer (d : Deferred) Q st :
  Q (Ok tt) (pushDeferred d st) -> wp (defer d) Q st.
Proof. exact (fun H => H). Qed.

Lemma wp_timeNow (W : World) Q st :
  Q (Ok (Now W (trace st))) st -> wp (timeNow W) Q st.
Proof. exact (fun H => H). Qed.

Lemma wp_forEach {X} (I : list X -> State -> Prop) (body : X -> M unit)
    (Q : Result unit -> State -> Prop) :
  (forall x rest st, I (x :: rest) st -> wp (body x) (orLeave I Q rest) st) ->
  (forall st, I [] st -> Q (Ok tt) st) ->
  forall xs st, I xs st -> wp (forEach xs body) Q st.
Proof.
  intros Hbody Hend. induction xs as [|x xs IH]; intros st HI; simpl.
  - apply wp_ret. auto.
  - apply wp_bind. eapply wp_mono; [|apply (Hbody x xs st HI)].
    intros [[]|e|] st'; simpl; auto.
Qed.

(** One step through the code of [main]. *)
Ltac wp_step :=
  lazymatch goal with
  | |- wp (bind _ _) _ _ => apply wp_bind
  | |- wp (ret _) _ _ => apply wp_ret
  | |- wp (try _) _ _ => apply wp_try; [intros ? ?|intros ? ?]
  | |- wp (must _) _ _ => apply wp_must; [intros ? ?|intros ?]
  | |- wp (extern _ _) _ _ => apply wp_extern; [intros ? ?|intros ? ?]
  | |- wp (command _ _) _ _ => apply wp_command; [intros ?|intros ? ?]
  | |- wp (appendUsed _) _ _ => apply wp_appendUsed
  | |- wp (defer _) _ _ => apply wp_defer
  | |- wp (timeNow _) _ _ => apply wp_timeNow
  | |- wp (if ?b then _ else _) _ _ => destruct b eqn:?
  | |- wp (match ?x with (_, _) => _ end) _ _ => destruct x
  | |- wp (let _ := _ in _) _ _ => cbv zeta
  | |- andThen _ _ _ _ => unfold andThen at 1; cbv beta iota
  | |- orLeave _ _ _ _ _ => unfold orLeave at 1; cbv beta iota
  | |- wp (LoadManifestFile _ _) _ _ => unfold LoadManifestFile
  | |- wp (GenerateFiles _ _ _) _ _ => unfold GenerateFiles
  | |- wp (Execute _ _) _ _ => unfold Execute
  | |- wp (ExecuteDockerBuild _ _ _) _ _ => unfold ExecuteDockerBuild
  | |- wp (LoadPreset _ _) _ _ => unfold LoadPreset
  | |- wp (WriteDirFile _ _ _ _ _) _ _ => unfold WriteDirFile
  | |- wp (ExecuteDockerTag _ _ _) _ _ => unfold ExecuteDockerTag
  | |- wp (ExecuteDockerPush _ _ _) _ _ => unfold ExecuteDockerPush
  | |- wp (WriteFile _ _ _ _ _) _ _ => unfold WriteFile
  | |- wp (ExecuteKubectlPatch _ _ _ _ _ _) _ _ => unfold ExecuteKubectlPatch
  | |- wp (patchWorkload _ _ _ _ _) _ _ => unfold patchWorkload
  | |- wp (deployWorkload _ _ _ _) _ _ => unfold deployWorkload
  | |- wp (package _ _ _) _ _ => unfold package
  end.

Ltac wp_steps := repeat wp_step.


(** ** Invariants of the loop over the workloads *)

Section LoopInvariant.
Variable W : World.
Variable opts : Options.
Variable workloads : WorkloadOptions.
Variable imageNames : ImageNames.

(** [Inv] is kept by every call the loop over [workloads] records: a
    call of a per-workload stage (and never a call of the patch stage
    under [--skip-deploy]); a docker-tag call that succeeded is followed
    by the append to [usedImageNames] and the push of the same name; a
    call of the cluster-patch executor has the arguments line 196 gives
    it. *)
Variable Inv : State -> Prop.

Hypothesis Inv_record : forall st e,
  Inv st -> loopCall (optSkipDeploy opts) e = true ->
  taggedOk e = false -> isPush e = false -> isPatch e = false ->
  Inv (record e st).

Hypothesis Inv_push : forall st src dst dcDir o,
  Inv st ->
  Inv (record (Ev (CExecuteDockerPush dst dcDir) o)
         (useImage dst (record (Ev (CExecuteDockerTag src dst) None) st))).

Hypothesis Inv_patch :
  forall st workload s fullImageNames timestamp image fileKubeconfig buf o,
  Inv st -> In workload workloads -> optSkipDeploy opts = false ->
  Derive imageNames (Registry s) = Some fullImageNames ->
  Primary fullImageNames = Some image ->
  Marshal W (buildPatch (TrimSpace W) timestamp s workload
                        (optCPU opts) (optMEM opts) image) = inr buf ->
  Inv (record (Ev (CExecuteKubectlPatch fileKubeconfig (Namespace workload)
                     (Namespace workload) (Type_ workload) buf) o) st).

Lemma pushImages_invariant fullImageNames dcDir st :
  Inv st ->
  wp (pushImages W imageNames fullImageNames dcDir) (fun _ st' => Inv st') st.
Proof.
  intros HI. unfold pushImages.
  apply (wp_forEach (fun _ st' => Inv st')); [|auto|exact HI].
  clear st HI. intros full rest st HI.
  wp_steps; auto.
Qed.

Lemma deployWorkload_invariant workload st :
  In workload workloads -> Inv st ->
  wp (deployWorkload W opts imageNames workload) (fun _ st' => Inv st') st.
Proof.
  intros Hin HI. wp_steps; auto.
  eapply wp_mono; [|apply pushImages_invariant; auto].
  intros [[]|e|] st' HI'; wp_steps; auto.
  all: try (apply Inv_record; auto; simpl;
            match goal with H : optSkipDeploy opts = false |- _ => now rewrite H end).
  all: eapply Inv_patch; eauto;
    apply Inv_record; auto; simpl;
    match goal with H : optSkipDeploy opts = false |- _ => now rewrite H end.
Qed.

Lemma deployAll_invariant st :
  Inv st ->
  wp (forEach workloads (deployWorkload W opts imageNames)) (fun _ st' => Inv st') st.
Proof.
  intros HI.
  apply (wp_forEach (fun rest st' => Inv st' /\ incl rest workloads));
    [| |split; [exact HI|apply incl_refl]].
  - intros workload rest st' [HI' Hincl].
    eapply wp_mono; [|apply deployWorkload_invariant; [|exact HI']].
    + intros [[]|e|] st''; simpl; auto. intros HI''. split; [exact HI''|].
      intros x Hx. apply Hincl. now right.
    + apply Hincl. now left.
  - now intros st' [HI' _].
Qed.
End LoopInvariant.

(** ** The phases of [main] *)

Section Phases.
Variable W : World.
Variable opts : Options.
Variable environ : gmap string string.

(** The packaging phase ends in one of two ways: with an error, the
    image cleanup not yet deferred, nothing used and no image built; or
    with four successful calls, the primary name used and the image
    cleanup deferred. It cannot panic. *)
Lemma package_spec :
  wp (package W opts environ)
     (fun r st =>
        match r with
        | Ok imageNames =>
            exists image env fileBuild filePackage primary,
              resolveImageEnv (optImage opts) (optEnv opts) (Getenv environ "JOB_NAME")
                = inr (image, env) /\
              imageNames = computeImageNames image env (Getenv environ "BUILD_NUMBER") /\
              Primary imageNames = Some primary /\
              trace st = [Ev (CLoadManifestFile (optManifest opts)) None;
                          Ev (CGenerateFiles env) None;
                          Ev (CExecute fileBuild) None;
                          Ev (CExecuteDockerBuild filePackage primary) None] /\
              usedImageNames st = [primary] /\
              deferred st = [DeferRemoveImages; DeferDeleteAll; DeferExit]
        | Fail e =>
            usedImageNames st = [] /\
            deferred st = [DeferDeleteAll; DeferExit] /\
            forallb isPackageCall (trace st) = true /\
            failsLast (trace st) = true /\
            built (trace st) = []
        | Panic => False
        end) (start).
Proof.
  wp_steps; simpl; auto.
  all: try match goal with
           | H : Primary (computeImageNames ?i ?e ?b) = None |- _ =>
               destruct (computeImageNames_Primary i e b); congruence
           end.
  match goal with
  | H : Primary ?names = Some ?p, H' : Primary ?names = Some ?p' |- _ =>
      assert (p' = p) as -> by congruence
  end.
  do 5 eexists. repeat split; eauto.
Qed.

(** The image cleanup appends one removal call per used name, in order. *)
Lemma removeImages_spec (names : ImageNames) (t : Trace) :
  exists evs,
    removeImages W names t = t ++ evs /\
    map call evs = map CExecuteDockerRemoveImage names.
Proof.
  revert t. induction names as [|name names IH]; intros t; simpl.
  - exists []. now rewrite app_nil_r.
  - destruct (IH (t ++ [Ev (CExecuteDockerRemoveImage name)
                           (doExecuteDockerRemoveImage W t name)])) as (evs & -> & Hc).
    eexists (_ :: evs). rewrite <- app_assoc. simpl. split; [reflexivity|].
    now rewrite Hc.
Qed.

(** The loop over the workloads defers nothing. *)
Lemma deployAll_deferred imageNames workloads st :
  wp (forEach workloads (deployWorkload W opts imageNames))
     (fun _ st' => deferred st' = deferred st) st.
Proof. now apply deployAll_invariant. Qed.

(** Case analysis on a run of [main]. Either packaging failed: the
    trace is the packaging calls, all but the last successful, followed
    by the temporary-file cleanup, and the status is 1. Or packaging
    succeeded, the loop over the workloads ran from the state [st0] that
    packaging left, and the deferred functions removed every used image
    and then the temporary files. *)
Lemma main_cases (P : Run -> Prop) :
  (forall t e,
     forallb isPackageCall t = true -> failsLast t = true -> built t = [] ->
     P {| run_trace := t ++ [Ev CDeleteAll None]; run_used := [];
          run_err := Some e; run_panicked := false; exit_code := 1 |}) ->
  (forall image env fileBuild filePackage primary st0 r st evs,
     resolveImageEnv (optImage opts) (optEnv opts) (Getenv environ "JOB_NAME")
       = inr (image, env) ->
     let imageNames := computeImageNames image env (Getenv environ "BUILD_NUMBER") in
     Primary imageNames = Some primary ->
     trace st0 = [Ev (CLoadManifestFile (optManifest opts)) None;
                  Ev (CGenerateFiles env) None;
                  Ev (CExecute fileBuild) None;
                  Ev (CExecuteDockerBuild filePackage primary) None] ->
     usedImageNames st0 = [primary] ->
     forEach (optWorkloads opts) (deployWorkload W opts imageNames) st0 = (r, st) ->
     map call evs = map CExecuteDockerRemoveImage (usedImageNames st) ->
     P {| run_trace := trace st ++ evs ++ [Ev CDeleteAll None];
          run_used := usedImageNames st;
          run_err := errOfResult r;
          run_panicked := match r with Panic => true | _ => false end;
          exit_code := match r with Ok _ => 0 | Fail _ => 1 | Panic => 2 end |}) ->
  P (main W opts environ).
Proof.
  intros Hfailed Hpackaged. unfold main, mainBody, bind.
  pose proof package_spec as Hpk. unfold wp in Hpk.
  destruct (package W opts environ start) as [[imageNames|e|] st0]; simpl in Hpk.
  - destruct Hpk as (image & env & fb & fp & primary & Hres & -> & Hprim & Ht & Hu & Hd).
    pose proof (deployAll_deferred
                  (computeImageNames image env (Getenv environ "BUILD_NUMBER"))
                  (optWorkloads opts) st0) as Hdef.
    unfold wp in Hdef.
    destruct (forEach (optWorkloads opts) _ st0) as [r st] eqn:Hloop.
    simpl in Hdef. rewrite Hdef, Hd. simpl.
    destruct (removeImages_spec (usedImageNames st) (trace st)) as (evs & Hrm & Hcalls).
    rewrite Hrm.
    specialize (Hpackaged image env fb fp primary st0 r st evs Hres Hprim Ht Hu Hloop Hcalls).
    rewrite <- app_assoc.
    destruct r as [[]|e|]; simpl; exact Hpackaged.
  - destruct Hpk as (Hu & Hd & Hcalls & Hlast & Hbuilt).
    rewrite Hd, Hu. simpl. now apply Hfailed.
  - contradiction.
Qed.
End Phases.

(** ** Missing parameters *)

(** C5: when [--image] or [--env] is missing and JOB_NAME does not split
    on dots into exactly two parts, [main] ends with the
    missing-parameters error and status 1, and the only call made is the
    deferred removal of temporary files: no manifest load, build,
    package, push or patch. *)
Theorem main_missing_parameters (W : World) (opts : Options)
    (environ : gmap string string) :
  optImage opts = "" \/ optEnv opts = "" ->
  length (Split_dot (Getenv environ "JOB_NAME")) <> 2%nat ->
  main W opts environ =
    {| run_trace := [Ev CDeleteAll None];
       run_used := [];
       run_err := Some ErrMissingParameters;
       run_panicked := false;
       exit_code := 1 |}.
Proof.
  intros Hmiss Hsplit.
  pose proof (resolveImageEnv_fails _ _ _ Hmiss Hsplit) as Hres.
  unfold main, mainBody, package, bind, defer, try. simpl.
  rewrite Hres. reflexivity.
Qed.

Lemma main_missing_parameters_witness :
  ("" = "" \/ "staging" = "") /\
  length (Split_dot (Getenv (Demo.environ "nightly" "7") "JOB_NAME")) <> 2%nat /\
  exit_code (main (Demo.world Demo.allFine)
                  (Demo.options "" "staging" [Demo.workload "a" "web" false] false)
                  (Demo.environ "nightly" "7")) = 1%Z.
Proof.
  assert (length (Split_dot (Getenv (Demo.environ "nightly" "7") "JOB_NAME")) <> 2%nat)
    as Hsplit by (vm_compute; discriminate).
  split; [left; reflexivity|]. split; [exact Hsplit|].
  rewrite (main_missing_parameters (Demo.world Demo.allFine)
             (Demo.options "" "staging" [Demo.workload "a" "web" false] false)
             (Demo.environ "nightly" "7") (or_introl eq_refl) Hsplit).
  reflexivity.
Defined.

(** ** Fail-fast *)

Lemma failsLast_snoc (t : Trace) (e : Event) :
  failsLast (t ++ [e]) = forallb succeeded t.
Proof. unfold failsLast. now rewrite removelast_last. Qed.

Lemma succeeded_failsLast (t : Trace) :
  forallb succeeded t = true -> failsLast t = true.
Proof.
  unfold failsLast. induction t as [|e [|e' t] IH]; simpl; auto.
  intros [He H]%andb_prop. rewrite He. simpl. apply IH. exact H.
Qed.

Lemma succeeded_snoc (t : Trace) (c : Call) :
  forallb succeeded t = true -> forallb succeeded (t ++ [Ev c None]) = true.
Proof. intros H. now rewrite forallb_app, H. Qed.

Section FailFast.
Variable W : World.
Variable opts : Options.
Variable imageNames : ImageNames.
Variable primary : string.
Hypothesis Hprimary : Primary imageNames = Some primary.

Lemma pushImages_failFast fullImageNames dcDir st :
  forallb succeeded (trace st) = true ->
  wp (pushImages W imageNames fullImageNames dcDir) failFast st.
Proof.
  intros Hok. unfold pushImages.
  apply (wp_forEach (fun _ st' => forallb succeeded (trace st') = true));
    [|auto|exact Hok].
  clear st Hok. intros full rest st Hok.
  wp_steps; simpl; rewrite ?failsLast_snoc; auto using succeeded_snoc; congruence.
Qed.

Lemma deployWorkload_failFast workload st :
  forallb succeeded (trace st) = true ->
  wp (deployWorkload W opts imageNames workload) failFast st.
Proof.
  intros Hok. wp_steps; simpl; rewrite ?failsLast_snoc; auto using succeeded_snoc.
  - eapply wp_mono; [|apply pushImages_failFast; simpl; auto using succeeded_snoc].
    intros [[]|e|] st' Hst'; simpl in *; auto.
    wp_steps; simpl; rewrite ?failsLast_snoc; auto using succeeded_snoc,
      succeeded_failsLast.
    match goal with
    | H : Derive _ _ = Some _ |- _ => destruct (Derive_Primary _ _ _ _ H Hprimary)
    end. congruence.
  - destruct imageNames; simpl in *; congruence.
Qed.

Lemma deployAll_failFast workloads st :
  forallb succeeded (trace st) = true ->
  wp (forEach workloads (deployWorkload W opts imageNames)) failFast st.
Proof.
  intros Hok.
  apply (wp_forEach (fun _ st' => forallb succeeded (trace st') = true));
    [|auto|exact Hok].
  intros workload rest st' Hok'.
  eapply wp_mono; [|apply deployWorkload_failFast; exact Hok'].
  intros [[]|e|] st''; simpl; auto.
Qed.
End FailFast.

Lemma failsLast_tail (e : Event) (t : Trace) :
  failsLast (e :: t) = true -> failsLast t = true.
Proof.
  unfold failsLast. destruct t as [|e' t]; [reflexivity|].
  change (removelast (e :: e' :: t)) with (e :: removelast (e' :: t)).
  simpl forallb at 1. now intros [_ H]%andb_prop.
Qed.

(** In a trace made of a body whose calls all succeeded but perhaps the
    last, followed by cleanup calls, a failed call that is not a cleanup
    call is the last call of the body. *)
Lemma failed_call_is_last (body cl pre post : Trace) (e : Event) :
  body ++ cl = pre ++ e :: post ->
  forallb isCleanup cl = true ->
  failsLast body = true ->
  succeeded e = false -> isCleanup e = false ->
  body = pre ++ [e] /\ post = cl.
Proof.
  intros Heq Hcl Hlast Hfail Hstage. revert pre Heq.
  induction body as [|b body IH]; intros pre Heq.
  - simpl in Heq. subst cl. rewrite forallb_app in Hcl.
    apply andb_prop in Hcl as [_ Hcl]. simpl in Hcl.
    rewrite Hstage in Hcl. discriminate.
  - destruct pre as [|p pre]; simpl in Heq; injection Heq as -> Heq.
    + destruct body as [|b' body]; [now simpl in *|].
      unfold failsLast in Hlast.
      change (removelast (e :: b' :: body)) with (e :: removelast (b' :: body)) in Hlast.
      simpl in Hlast. rewrite Hfail in Hlast. discriminate.
    + destruct (IH (failsLast_tail _ _ Hlast) pre Heq) as [-> ->]. now split.
Qed.

Section MainFailFast.
Variable W : World.
Variable opts : Options.
Variable environ : gmap string string.


(** [main] does not panic. *)
Lemma main_no_panic : run_panicked (main W opts environ) = false.
Proof.
  pattern (main W opts environ). apply main_cases; [reflexivity|].
  intros image env fb fp primary st0 r st evs Hres names Hprim Ht Hu Hloop Hcalls.
  pose proof (deployAll_failFast W opts names primary Hprim (optWorkloads opts) st0) as H.
  unfold wp in H. rewrite Hloop, Ht in H. specialize (H eq_refl).
  now destruct r.
Qed.

Lemma removal_calls_cleanup (evs : Trace) (names : list string) :
  map call evs = map CExecuteDockerRemoveImage names ->
  forallb isCleanup (evs ++ [Ev CDeleteAll None]) = true.
Proof.
  revert names. induction evs as [|[c o] evs IH]; intros [|n names] H;
    simpl in *; try discriminate; auto.
  injection H as -> H. unfold isCleanup at 1. simpl. now apply (IH names).
Qed.

(** Once a call of a pipeline stage has failed, only cleanup calls
    follow, and the run ends with status 1. *)
Lemma main_failed_call (pre post : Trace) (e : Event) :
  run_trace (main W opts environ) = pre ++ e :: post ->
  succeeded e = false -> isCleanup e = false ->
  forallb isCleanup post = true /\ exit_code (main W opts environ) = 1%Z.
Proof.
  pattern (main W opts environ). apply main_cases.
  - intros t err Hcalls Hlast Hbuilt Htrace Hfail Hstage. simpl in *.
    destruct (failed_call_is_last t [Ev CDeleteAll None] pre post e)
      as [_ ->]; auto.
  - intros image env fb fp primary st0 r st evs Hres names Hprim Ht Hu Hloop Hcalls
           Htrace Hfail Hstage. simpl in *.
    pose proof (deployAll_failFast W opts names primary Hprim (optWorkloads opts) st0) as H.
    unfold wp in H. rewrite Hloop, Ht in H. specialize (H eq_refl). simpl in H.
    pose proof (removal_calls_cleanup evs _ Hcalls) as Hcl.
    assert (failsLast (trace st) = true) as Hlast.
    { destruct r; simpl in H; auto using succeeded_failsLast. }
    destruct (failed_call_is_last (trace st) (evs ++ [Ev CDeleteAll None]) pre post e)
      as [Hbody ->]; auto.
    split; [exact Hcl|].
    destruct r as [[]|err|]; simpl in H; [|reflexivity|contradiction].
    rewrite Hbody, forallb_app in H. simpl in H. rewrite Hfail in H.
    rewrite andb_false_r in H. discriminate.
Qed.

(** C6: in every run, when a call of any stage (manifest load, file
    generation, build, package, preset load, dockerconfig write, tag,
    push, kubeconfig write, patch) fails, every call after it is a
    cleanup call (image removal or temporary-file removal): no later
    workload is pushed or patched; and the run ends with status 1. *)
Theorem main_fail_fast (pre post : Trace) (e : Event) :
  run_trace (main W opts environ) = pre ++ e :: post ->
  succeeded e = false -> isCleanup e = false ->
  forallb isCleanup post = true /\
  pushed post = [] /\ patchCalls post = [] /\ loaded post = [] /\
  exit_code (main W opts environ) = 1%Z.
Proof.
  intros Htrace Hfail Hstage.
  destruct (main_failed_call pre post e Htrace Hfail Hstage) as [Hcl Hexit].
  split; [exact Hcl|]. split; [|split; [|split; [|exact Hexit]]].
  all: clear Htrace; induction post as [|[c o] post IH]; [reflexivity|];
    simpl in Hcl; apply andb_prop in Hcl as [Hc Hcl];
    unfold isCleanup in Hc; simpl in *; destruct c; try discriminate; auto.
Qed.
End MainFailFast.

(** ** Used image names and their cleanup *)

Lemma removal_calls_observed (evs : Trace) (names : list string) :
  map call evs = map CExecuteDockerRemoveImage names ->
  removed evs = names /\ tagged evs = [] /\ pushed evs = [] /\ built evs = [] /\
  loaded evs = [] /\ patchCalls evs = [].
Proof.
  revert names. induction evs as [|[c o] evs IH]; intros [|n names] H;
    simpl in *; try discriminate; [repeat split|].
  injection H as -> H. destruct (IH names H) as (-> & Ht & Hp & Hb & Hl & Hk).
  unfold tagged, pushed, built, loaded, patchCalls in *. simpl.
  now rewrite Ht, Hp, Hb, Hl, Hk.
Qed.

Lemma built_In (t : Trace) (file image : string) :
  In (Ev (CExecuteDockerBuild file image) None) t -> In image (built t).
Proof.
  intros H. unfold built. apply in_flat_map. eexists. split; [exact H|]. now left.
Qed.

Lemma tagged_In (t : Trace) (src dst : string) :
  In (Ev (CExecuteDockerTag src dst) None) t -> In dst (tagged t).
Proof.
  intros H. unfold tagged. apply in_flat_map. eexists. split; [exact H|]. now left.
Qed.

Lemma pushed_In (t : Trace) (image dcDir : string) (o : option error) :
  In (Ev (CExecuteDockerPush image dcDir) o) t -> In image (pushed t).
Proof.
  intros H. unfold pushed. apply in_flat_map. eexists. split; [exact H|]. now left.
Qed.

Section UsedImages.
Variable W : World.
Variable opts : Options.
Variable environ : gmap string string.

Lemma deployAll_used primary imageNames workloads st :
  usedInv primary st ->
  wp (forEach workloads (deployWorkload W opts imageNames))
     (fun _ st' => usedInv primary st') st.
Proof.
  apply (deployAll_invariant W opts workloads imageNames (usedInv primary)).
  3: intros st' workload s full ts image kc buf o (Hu & Hp & Hr & Hb) _ _ _ _ _;
     unfold usedInv, tagged, pushed, removed, built in *; simpl;
     rewrite !flat_map_app, Hu, Hr, Hb; simpl; rewrite ?app_nil_r; auto.
  - intros st' [c o] (Hu & Hp & Hr & Hb) Hcall Htag Hpush _.
    unfold usedInv, tagged, pushed, removed, built in *. simpl.
    rewrite !flat_map_app, Hu, Hr, Hb.
    unfold loopCall, taggedOk, isPush in *. simpl in *.
    destruct c; try discriminate; destruct o; try discriminate; simpl;
      rewrite ?app_nil_r; auto.
  - intros st' src dst dcDir o (Hu & Hp & Hr & Hb).
    unfold usedInv, tagged, pushed, removed, built in *. simpl.
    rewrite !flat_map_app, Hu, Hr, Hb. simpl. rewrite !app_nil_r.
    repeat split; auto.
    apply incl_app; [apply incl_appl; exact Hp|apply incl_appr, incl_refl].
Qed.

(** C7: in a run whose packaging succeeded, [usedImageNames] is the
    primary build tag followed by every derived name whose docker-tag
    call succeeded; every name handed to docker-push, successfully or
    not, is among them (it was recorded before the push); the deferred
    cleanup removes exactly these names, on every exit path; and a run
    with a failed push ends with status 1. *)
Theorem main_used_images (file primary : string) :
  In (Ev (CExecuteDockerBuild file primary) None) (run_trace (main W opts environ)) ->
  run_used (main W opts environ) = primary :: tagged (run_trace (main W opts environ)) /\
  incl (pushed (run_trace (main W opts environ))) (run_used (main W opts environ)) /\
  removed (run_trace (main W opts environ)) = run_used (main W opts environ) /\
  (forall image dcDir err,
     In (Ev (CExecuteDockerPush image dcDir) (Some err))
        (run_trace (main W opts environ)) ->
     In image (removed (run_trace (main W opts environ))) /\
     exit_code (main W opts environ) = 1%Z).
Proof.
  set (run := main W opts environ). intros Hbuilt.
  assert (forall image dcDir err,
            In (Ev (CExecuteDockerPush image dcDir) (Some err)) (run_trace run) ->
            exit_code run = 1%Z) as Hexit.
  { intros image dcDir err Hin. apply in_split in Hin as (pre & post & Hsplit).
    now apply (main_failed_call W opts environ pre post _ Hsplit). }
  assert (run_used run = primary :: tagged (run_trace run) /\
          incl (pushed (run_trace run)) (run_used run) /\
          removed (run_trace run) = run_used run) as (Hu & Hp & Hr).
  { clear Hexit. revert Hbuilt. unfold run. clear run.
    pattern (main W opts environ). apply main_cases.
    - intros t e _ _ Hnone Hin. simpl in Hin.
      apply built_In in Hin. unfold built in *.
      rewrite flat_map_app, Hnone in Hin. contradiction.
    - intros image env fb fp primary' st0 r st evs Hres names Hprim Ht Hu0 Hloop Hcalls Hin.
      pose proof (deployAll_used primary' names (optWorkloads opts) st0) as H.
      unfold wp in H. rewrite Hloop in H. simpl in H.
      destruct H as (Hu & Hp & Hr & Hb).
      { unfold usedInv. rewrite Ht, Hu0. repeat split; auto. intros x []. }
      destruct (removal_calls_observed evs _ Hcalls) as (Hr' & Ht' & Hp' & Hb' & _).
      simpl in *. apply built_In in Hin.
      unfold tagged, pushed, removed, built in *.
      rewrite !flat_map_app in *. rewrite Hb, Hb' in Hin. simpl in Hin.
      destruct Hin as [<-|[]].
      rewrite Ht', Hp', Hr', Hr, Hu. simpl. rewrite !app_nil_r.
      repeat split; auto. now apply incl_tl. }
  repeat split; auto.
  - rewrite Hr. apply Hp. eapply pushed_In; eauto.
  - eapply Hexit; eauto.
Qed.
End UsedImages.

(** ** [--skip-deploy] *)

Section SkipDeploy.
Variable W : World.
Variable opts : Options.
Variable environ : gmap string string.
Hypothesis Hskip : optSkipDeploy opts = true.

Lemma deployAll_no_patch imageNames workloads st :
  patchCalls (trace st) = [] ->
  wp (forEach workloads (deployWorkload W opts imageNames))
     (fun _ st' => patchCalls (trace st') = []) st.
Proof.
  apply (deployAll_invariant W opts workloads imageNames
           (fun st' => patchCalls (trace st') = [])).
  - intros st' [c o] H Hcall _ _ _. unfold patchCalls in *. simpl.
    rewrite flat_map_app, H. unfold loopCall in Hcall. rewrite Hskip in Hcall.
    simpl in *. now destruct c.
  - intros st' src dst dcDir o H. unfold patchCalls in *. simpl.
    now rewrite !flat_map_app, H.
  - intros st' workload s full ts image kc buf o _ _ Hno. congruence.
Qed.

Lemma pushImages_calls imageNames primary fullImageNames dcDir st :
  Primary imageNames = Some primary ->
  wp (pushImages W imageNames fullImageNames dcDir)
     (fun r st' =>
        r = Ok tt -> trace st' = trace st ++ pushCalls primary dcDir fullImageNames) st.
Proof.
  intros Hprim. unfold pushImages.
  apply (wp_forEach
           (fun rest st' =>
              exists done, fullImageNames = done ++ rest /\
                           trace st' = trace st ++ pushCalls primary dcDir done)).
  - intros full rest st' (done & Hsplit & Ht).
    wp_steps; simpl; try discriminate; try congruence.
    exists (done ++ [full]). rewrite <- app_assoc. split; [exact Hsplit|].
    unfold pushCalls. rewrite flat_map_app, Ht. simpl.
    rewrite <- !app_assoc. simpl.
    assert (a = primary) as -> by congruence. reflexivity.
  - intros st' (done & Hsplit & Ht) _. rewrite app_nil_r in Hsplit. now subst.
  - exists []. simpl. now rewrite app_nil_r.
Qed.

Lemma deployWorkload_calls imageNames workload st :
  wp (deployWorkload W opts imageNames workload)
     (fun r st' =>
        r = Ok tt ->
        exists calls, pushStages W imageNames workload calls /\
                      trace st' = trace st ++ calls) st.
Proof.
  wp_steps; try discriminate.
  destruct (Primary imageNames) as [primary|] eqn:Hprim;
    [|destruct imageNames; discriminate].
  eapply wp_mono; [|apply (pushImages_calls imageNames primary); exact Hprim].
  intros [[]|e|] st' Hst'; simpl in *; try discriminate.
  rewrite Hskip. apply wp_ret. intros _.
  eexists. split.
  - exists a, primary, a0, s. repeat split; eauto.
  - rewrite (Hst' eq_refl), <- !app_assoc. reflexivity.
Qed.

Lemma deployAll_calls imageNames workloads st :
  wp (forEach workloads (deployWorkload W opts imageNames))
     (fun r st' =>
        r = Ok tt ->
        exists segments,
          Forall2 (pushStages W imageNames) workloads segments /\
          trace st' = trace st ++ concat segments) st.
Proof.
  apply (wp_forEach
           (fun rest st' =>
              exists done segments,
                workloads = done ++ rest /\
                Forall2 (pushStages W imageNames) done segments /\
                trace st' = trace st ++ concat segments)).
  - intros workload rest st' (done & segments & Hsplit & Hall & Ht).
    eapply wp_mono; [|apply deployWorkload_calls].
    intros [[]|e|] st'' Hst''; simpl; try discriminate.
    destruct (Hst'' eq_refl) as (calls & Hcalls & Ht'').
    exists (done ++ [workload]), (segments ++ [calls]).
    rewrite <- app_assoc. split; [exact Hsplit|]. split.
    + apply Forall2_app; [exact Hall|]. now constructor.
    + rewrite Ht'', Ht, concat_app, <- app_assoc. simpl. now rewrite app_nil_r.
  - intros st' (done & segments & Hsplit & Hall & Ht) _.
    rewrite app_nil_r in Hsplit. subst done. eauto.
  - exists [], []. simpl. rewrite app_nil_r. repeat split. constructor.
Qed.

(** C8: with [--skip-deploy] the cluster-patch executor is never
    called; and when the run succeeds, its calls are the packaging calls,
    then for each workload in input order the preset load, the
    dockerconfig write and a tag and a push of every derived image name,
    then the cleanup calls. *)
Theorem main_skip_deploy :
  patchCalls (run_trace (main W opts environ)) = [] /\
  (exit_code (main W opts environ) = 0%Z ->
   exists packaging segments cleanup,
     run_trace (main W opts environ) = packaging ++ concat segments ++ cleanup /\
     forallb isPackageCall packaging = true /\
     Forall2 (pushStages W (runImageNames opts environ)) (optWorkloads opts) segments /\
     forallb isCleanup cleanup = true).
Proof.
  simpl. pattern (main W opts environ). apply main_cases.
  - intros t e Hcalls _ _. simpl. split; [|discriminate].
    unfold patchCalls. rewrite flat_map_app. simpl. rewrite app_nil_r.
    clear -Hcalls. induction t as [|[c o] t IH]; [reflexivity|].
    simpl in *. apply andb_prop in Hcalls as [Hc Hcalls].
    unfold isPackageCall in Hc. simpl in Hc. rewrite (IH Hcalls).
    now destruct c.
  - intros image env fb fp primary st0 r st evs Hres names Hprim Ht Hu Hloop Hcalls.
    simpl. split.
    + pose proof (deployAll_no_patch names (optWorkloads opts) st0) as H.
      unfold wp in H. rewrite Hloop, Ht in H. specialize (H eq_refl). simpl in H.
      destruct (removal_calls_observed evs _ Hcalls) as (_ & _ & _ & _ & _ & Hk).
      unfold patchCalls in *. now rewrite !flat_map_app, H, Hk.
    + intros Hexit.
      pose proof (deployAll_calls names (optWorkloads opts) st0) as H.
      unfold wp in H. rewrite Hloop in H. simpl in H.
      destruct r as [[]|e|]; try discriminate.
      destruct (H eq_refl) as (segments & Hall & Htrace).
      exists (trace st0), segments, (evs ++ [Ev CDeleteAll None]).
      rewrite Htrace, <- !app_assoc. split; [reflexivity|].
      split; [now rewrite Ht|]. split.
      * unfold runImageNames. now rewrite Hres.
      * eapply removal_calls_cleanup; eauto.
Qed.
End SkipDeploy.

(** ** Arguments of the cluster-patch executor *)

Section PatchArguments.
Variable W : World.
Variable opts : Options.
Variable environ : gmap string string.

Lemma deployAll_patch_arguments imageNames st :
  Forall (patchCallOf W opts imageNames) (patchCalls (trace st)) ->
  wp (forEach (optWorkloads opts) (deployWorkload W opts imageNames))
     (fun _ st' => Forall (patchCallOf W opts imageNames) (patchCalls (trace st'))) st.
Proof.
  apply (deployAll_invariant W opts (optWorkloads opts) imageNames
           (fun st' => Forall (patchCallOf W opts imageNames) (patchCalls (trace st')))).
  - intros st' [c o] H _ _ _ Hpatch. unfold patchCalls in *. simpl.
    rewrite flat_map_app. apply Forall_app. split; [exact H|].
    unfold isPatch in Hpatch. simpl in *. destruct c; try discriminate; constructor.
  - intros st' src dst dcDir o H. unfold patchCalls in *. simpl.
    rewrite !flat_map_app. simpl. now rewrite !app_nil_r.
  - intros st' workload s full ts image kc buf o H Hin _ Hfull Himage Hbuf.
    unfold patchCalls in *.
    simpl. rewrite flat_map_app. apply Forall_app. split; [exact H|].
    simpl. constructor; [|constructor].
    exists workload, s, full, ts, image, kc, buf. auto.
Qed.

(** In every run, each call of the cluster-patch executor passes the
    namespace of a workload both as namespace and as resource name, and
    the serialized patch of that workload. *)
Lemma main_patch_arguments :
  Forall (patchCallOf W opts (runImageNames opts environ))
         (patchCalls (run_trace (main W opts environ))).
Proof.
  pattern (main W opts environ). apply main_cases.
  - intros t e Hcalls _ _. simpl. unfold patchCalls. rewrite flat_map_app. simpl.
    rewrite app_nil_r. clear -Hcalls.
    induction t as [|[c o] t IH]; [constructor|].
    simpl in *. apply andb_prop in Hcalls as [Hc Hcalls].
    unfold isPackageCall in Hc. simpl in Hc.
    destruct c; try discriminate; simpl; auto.
  - intros image env fb fp primary st0 r st evs Hres names Hprim Ht Hu Hloop Hcalls.
    simpl. unfold runImageNames. rewrite Hres. fold names.
    pose proof (deployAll_patch_arguments names st0) as H.
    unfold wp in H. rewrite Hloop, Ht in H. specialize (H ltac:(constructor)).
    simpl in H.
    destruct (removal_calls_observed evs _ Hcalls) as (_ & _ & _ & _ & _ & Hk).
    unfold patchCalls in *. rewrite !flat_map_app, Hk. simpl. now rewrite app_nil_r.
Qed.
End PatchArguments.

(** C1: for the workload [a/ns/deployment/web] the cluster-patch
    executor receives the kubeconfig path, the namespace [ns], then [ns]
    again where the resource name [web] belongs, the kind [deployment]
    and the patch. *)
Theorem main_patch_passes_namespace_as_name :
  Name (Demo.workload "a" "web" false) = "web" /\
  patchCalls
    (run_trace (main (Demo.world Demo.allFine)
                     (Demo.options "svc" "prod" [Demo.workload "a" "web" false] false)
                     (Demo.environ "" "")))
  = [CExecuteKubectlPatch "/tmp/deployer-kubeconfig.yml" "ns" "ns" "deployment"
       "{ts=2020-01-02T03:04:05Z;secrets=regcred;init=;containers=app@reg.a/svc:prod[100m/256Mi,200m/512Mi]}"].
Proof. split; [reflexivity|]. vm_compute. reflexivity. Qed.

(** ** Preset loads *)

Section PresetLoads.
Variable W : World.
Variable opts : Options.
Variable environ : gmap string string.

Lemma loaded_snoc (t : Trace) (e : Event) :
  loaded (t ++ [e]) =
  loaded t ++ match call e with CLoadPreset cluster => [cluster] | _ => [] end.
Proof. unfold loaded. rewrite flat_map_app. simpl. now rewrite app_nil_r. Qed.

Lemma pushImages_loaded imageNames fullImageNames dcDir clusters st :
  loaded (trace st) = clusters ->
  wp (pushImages W imageNames fullImageNames dcDir)
     (fun _ st' => loaded (trace st') = clusters) st.
Proof.
  intros Hl. unfold pushImages.
  apply (wp_forEach (fun _ st' => loaded (trace st') = clusters)); [|auto|exact Hl].
  clear st Hl. intros full rest st Hl.
  wp_steps; simpl; rewrite ?loaded_snoc; simpl; rewrite ?app_nil_r; auto.
Qed.

(** Each pass through the loop body calls [LoadPreset] once, with the
    cluster of its workload, however the pass ends. *)
Lemma deployWorkload_loaded imageNames workload st :
  wp (deployWorkload W opts imageNames workload)
     (fun _ st' => loaded (trace st') = loaded (trace st) ++ [Cluster workload]) st.
Proof.
  wp_steps; simpl; rewrite ?loaded_snoc; simpl; rewrite ?app_nil_r; auto.
  eapply wp_mono;
    [|apply (pushImages_loaded _ _ _ (loaded (trace st) ++ [Cluster workload]));
      simpl; rewrite ?loaded_snoc; simpl; now rewrite ?app_nil_r].
  intros [[]|e|] st' Hst'; simpl; auto.
  wp_steps; simpl; rewrite ?loaded_snoc; simpl; rewrite ?app_nil_r; auto.
Qed.

(** The clusters loaded by the loop are those of the workloads it
    reached, in order: all of them when it falls through. *)
Lemma deployAll_loaded imageNames workloads st :
  wp (forEach workloads (deployWorkload W opts imageNames))
     (fun r st' =>
        exists rest,
          loaded (trace st') ++ rest = loaded (trace st) ++ map Cluster workloads /\
          (r = Ok tt -> rest = [])) st.
Proof.
  apply (wp_forEach
           (fun rest st' =>
              loaded (trace st') ++ map Cluster rest =
              loaded (trace st) ++ map Cluster workloads)); [| |reflexivity].
  - intros workload rest st' HI.
    eapply wp_mono; [|apply deployWorkload_loaded].
    intros [[]|e|] st'' Hst''; simpl in *.
    + now rewrite Hst'', <- app_assoc.
    + exists (map Cluster rest). rewrite Hst'', <- app_assoc. split; [exact HI|].
      discriminate.
    + exists (map Cluster rest). rewrite Hst'', <- app_assoc. split; [exact HI|].
      discriminate.
  - intros st' HI. exists []. simpl in HI. rewrite app_nil_r in *. auto.
Qed.

(** C9, as the code has it: [LoadPreset] is called once for each
    workload the loop reaches, in input order, with that workload's
    cluster; the clusters loaded are a prefix of the workloads' clusters,
    and all of them when the run succeeds. Nothing is cached per
    cluster. *)
Theorem main_loads_preset_per_workload :
  exists rest,
    loaded (run_trace (main W opts environ)) ++ rest = map Cluster (optWorkloads opts) /\
    (exit_code (main W opts environ) = 0%Z -> rest = []).
Proof.
  pattern (main W opts environ). apply main_cases.
  - intros t e Hcalls _ _. simpl. exists (map Cluster (optWorkloads opts)).
    split; [|discriminate]. rewrite loaded_snoc. simpl. rewrite app_nil_r.
    assert (loaded t = []) as ->; [|reflexivity].
    clear -Hcalls. induction t as [|[c o] t IH]; [reflexivity|].
    simpl in *. apply andb_prop in Hcalls as [Hc Hcalls].
    unfold isPackageCall in Hc. simpl in Hc. unfold loaded in *. simpl.
    rewrite (IH Hcalls). now destruct c.
  - intros image env fb fp primary st0 r st evs Hres names Hprim Ht Hu Hloop Hcalls.
    simpl.
    pose proof (deployAll_loaded names (optWorkloads opts) st0) as H.
    unfold wp in H. rewrite Hloop, Ht in H. simpl in H.
    destruct H as (rest & Hrest & Hok). exists rest.
    destruct (removal_calls_observed evs _ Hcalls) as (_ & _ & _ & _ & Hl & _).
    unfold loaded in *. rewrite !flat_map_app, Hl. simpl. rewrite app_nil_r.
    split; [exact Hrest|]. intros Hexit. apply Hok.
    now destruct r as [[]|e|].
Qed.
End PresetLoads.

(** C9, as stated, fails: two workloads on cluster [a] make two
    [LoadPreset] calls for [a]. *)
Lemma main_loads_same_cluster_twice :
  exit_code Demo.sameClusterRun = 0%Z /\
  loaded (run_trace Demo.sameClusterRun) = ["a"; "a"] /\
  ~ NoDup (loaded (run_trace Demo.sameClusterRun)).
Proof.
  vm_compute. split; [reflexivity|]. split; [reflexivity|].
  intros H. inversion H as [|x l Hnotin _]. apply Hnotin. now left.
Qed.

Lemma main_loads_preset_per_workload_witness :
  exit_code Demo.sameClusterRun = 0%Z /\
  exists rest,
    loaded (run_trace Demo.sameClusterRun) ++ rest = ["a"; "a"] /\
    (exit_code Demo.sameClusterRun = 0%Z -> rest = []).
Proof.
  split; [vm_compute; reflexivity|].
  exact (main_loads_preset_per_workload (Demo.world Demo.allFine)
           (Demo.options "svc" "prod"
              [Demo.workload "a" "web" false; Demo.workload "a" "worker" false] false)
           (Demo.environ "" "")).
Defined.

(** ** The runs of the specification's end-to-end examples *)

Lemma main_fail_fast_witness :
  run_trace Demo.failedPushRun =
    firstn 13 (run_trace Demo.failedPushRun)
    ++ Ev (CExecuteDockerPush "reg.b/svc:prod" "/tmp/deployer-dockerconfig")
          (Some "push failed")
    :: skipn 14 (run_trace Demo.failedPushRun) /\
  map call (skipn 14 (run_trace Demo.failedPushRun)) =
    [CExecuteDockerRemoveImage "svc:prod"; CExecuteDockerRemoveImage "reg.a/svc:prod";
     CExecuteDockerRemoveImage "reg.b/svc:prod"; CDeleteAll] /\
  forallb isCleanup (skipn 14 (run_trace Demo.failedPushRun)) = true /\
  loaded (skipn 14 (run_trace Demo.failedPushRun)) = [] /\
  exit_code Demo.failedPushRun = 1%Z.
Proof.
  assert (run_trace Demo.failedPushRun =
            firstn 13 (run_trace Demo.failedPushRun)
            ++ Ev (CExecuteDockerPush "reg.b/svc:prod" "/tmp/deployer-dockerconfig")
                  (Some "push failed")
            :: skipn 14 (run_trace Demo.failedPushRun)) as Hsplit
    by (vm_compute; reflexivity).
  split; [exact Hsplit|]. split; [vm_compute; reflexivity|].
  destruct (main_fail_fast (Demo.world Demo.pushToBFails)
              (Demo.options "svc" "prod"
                 [Demo.workload "a" "web" false; Demo.workload "b" "job" true;
                  Demo.workload "c" "api" false] false)
              (Demo.environ "" "") _ _ _ Hsplit eq_refl eq_refl)
    as (Hcl & _ & _ & Hl & Hexit).
  split; [exact Hcl|]. split; [exact Hl|exact Hexit].
Defined.

(** Push failure for the second workload: the names tagged for the first
    workload are still removed, and the status is 1. *)
Lemma main_used_images_witness :
  In (Ev (CExecuteDockerBuild "/tmp/Dockerfile" "svc:prod") None)
     (run_trace Demo.failedPushRun) /\
  In (Ev (CExecuteDockerPush "reg.b/svc:prod" "/tmp/deployer-dockerconfig")
         (Some "push failed"))
     (run_trace Demo.failedPushRun) /\
  run_used Demo.failedPushRun = ["svc:prod"; "reg.a/svc:prod"; "reg.b/svc:prod"] /\
  removed (run_trace Demo.failedPushRun) = run_used Demo.failedPushRun /\
  exit_code Demo.failedPushRun = 1%Z.
Proof.
  assert (In (Ev (CExecuteDockerBuild "/tmp/Dockerfile" "svc:prod") None)
             (run_trace Demo.failedPushRun)) as Hbuilt
    by (vm_compute; tauto).
  assert (In (Ev (CExecuteDockerPush "reg.b/svc:prod" "/tmp/deployer-dockerconfig")
                 (Some "push failed"))
             (run_trace Demo.failedPushRun)) as Hpush
    by (vm_compute; tauto).
  split; [exact Hbuilt|]. split; [exact Hpush|].
  destruct (main_used_images (Demo.world Demo.pushToBFails)
              (Demo.options "svc" "prod"
                 [Demo.workload "a" "web" false; Demo.workload "b" "job" true;
                  Demo.workload "c" "api" false] false)
              (Demo.environ "" "") _ _ Hbuilt)
    as (Hused & _ & Hremoved & Hfailed).
  split; [vm_compute; reflexivity|]. split; [exact Hremoved|].
  exact (proj2 (Hfailed _ _ _ Hpush)).
Defined.

(** Two workloads with [--skip-deploy]: both are pushed, none patched. *)
Lemma main_skip_deploy_witness :
  optSkipDeploy (Demo.options "svc" "prod"
                   [Demo.workload "a" "web" false; Demo.workload "b" "job" true] true)
    = true /\
  exit_code Demo.skipDeployRun = 0%Z /\
  patchCalls (run_trace Demo.skipDeployRun) = [] /\
  pushed (run_trace Demo.skipDeployRun) = ["reg.a/svc:prod"; "reg.b/svc:prod"] /\
  exists packaging segments cleanup,
    run_trace Demo.skipDeployRun = packaging ++ concat segments ++ cleanup /\
    forallb isPackageCall packaging = true /\
    Forall2 (pushStages (Demo.world Demo.allFine)
               (runImageNames
                  (Demo.options "svc" "prod"
                     [Demo.workload "a" "web" false; Demo.workload "b" "job" true] true)
                  (Demo.environ "" "")))
            [Demo.workload "a" "web" false; Demo.workload "b" "job" true] segments /\
    forallb isCleanup cleanup = true.
Proof.
  assert (exit_code Demo.skipDeployRun = 0%Z) as Hexit by (vm_compute; reflexivity).
  split; [reflexivity|]. split; [exact Hexit|].
  destruct (main_skip_deploy (Demo.world Demo.allFine)
              (Demo.options "svc" "prod"
                 [Demo.workload "a" "web" false; Demo.workload "b" "job" true] true)
              (Demo.environ "" "") eq_refl) as [Hnone Hall].
  split; [exact Hnone|]. split; [vm_compute; reflexivity|].
  exact (Hall Hexit).
Defined.

(** The whole trace of the [--skip-deploy] run. *)
Example skipDeployRun_trace :
  map call (run_trace Demo.skipDeployRun) =
    [CLoadManifestFile "deployer.yml";
     CGenerateFiles "prod";
     CExecute "/tmp/build.sh";
     CExecuteDockerBuild "/tmp/Dockerfile" "svc:prod";
     CLoadPreset "a";
     CWriteDirFile "auth:reg.a" "deployer-dockerconfig" "config.json" false;
     CExecuteDockerTag "svc:prod" "reg.a/svc:prod";
     CExecuteDockerPush "reg.a/svc:prod" "/tmp/deployer-dockerconfig";
     CLoadPreset "b";
     CWriteDirFile "auth:reg.b" "deployer-dockerconfig" "config.json" false;
     CExecuteDockerTag "svc:prod" "reg.b/svc:prod";
     CExecuteDockerPush "reg.b/svc:prod" "/tmp/deployer-dockerconfig";
     CExecuteDockerRemoveImage "svc:prod";
     CExecuteDockerRemoveImage "reg.a/svc:prod";
     CExecuteDockerRemoveImage "reg.b/svc:prod";
     CDeleteAll].
Proof. vm_compute. reflexivity. Qed.

(** JOB_NAME and BUILD_NUMBER in place of the flags. *)
Example main_from_environment :
  built (run_trace (main (Demo.world Demo.allFine)
                         (Demo.options "" "" [] false)
                         (Demo.environ "app.staging" "42")))
  = ["app:staging-build-42"].
Proof. vm_compute. reflexivity. Qed.

(** ** Pull secrets and timestamp of a patch *)

(** X1: the patch carries the given timestamp and one pull-secret entry
    per name of the preset, trimmed, in the preset's order, whatever the
    workload and the overrides are. *)
Theorem buildPatch_pull_secrets (trim : string -> string) (timestamp : string)
    (s : Preset) (workload : Workload) (cpu mem : LimitOption) (image : string) :
  Patch.Timestamp (buildPatch trim timestamp s workload cpu mem image) = timestamp /\
  Patch.ImagePullSecrets (buildPatch trim timestamp s workload cpu mem image) =
    map (fun name => PatchImagePullSecret.Build (trim name)) (ImagePullSecrets s).
Proof.
  unfold buildPatch.
  destruct (fold_secrets trim (ImagePullSecrets s)
              (Patch.setTimestamp timestamp Patch.zero)) as (Ht & _ & _ & Hs).
  simpl in Ht, Hs. destruct (IsInit workload); simpl; rewrite Ht, Hs; auto.
Qed.

(** ** JOB_NAME as the source of image and environment *)

Lemma Split_dot_no_dot (s : string) : hasDot s = false -> Split_dot s = [s].
Proof.
  induction s as [|c s IH]; [reflexivity|]. simpl.
  destruct (Ascii.eqb c "."); simpl; [discriminate|].
  intros H. now rewrite (IH H).
Qed.

Lemma Split_dot_pieces (s : string) : Forall (fun piece => hasDot piece = false) (Split_dot s).
Proof.
  induction s as [|c s IH]; simpl; [repeat constructor|].
  destruct (Ascii.eqb c ".") eqn:Hc; [constructor; auto|].
  destruct (Split_dot s) as [|piece rest]; [repeat constructor; simpl; now rewrite Hc|].
  inversion IH as [|? ? Hp Hrest]; subst. constructor; [|exact Hrest].
  simpl. now rewrite Hc.
Qed.

Lemma Split_dot_app (a b : string) :
  hasDot a = false -> Split_dot (a +:+ "." +:+ b) = a :: Split_dot b.
Proof.
  induction a as [|c a IH]; [reflexivity|]. simpl.
  destruct (Ascii.eqb c "."); simpl; [discriminate|].
  intros H. simpl in IH. now rewrite (IH H).
Qed.

(** X2: when neither [--image] nor [--env] is given, the image and the
    environment resolved are the two dot-free halves of JOB_NAME: the
    resolution succeeds with [(image, env)] exactly when JOB_NAME is
    [image.env] and neither half contains a dot. *)
Theorem resolveImageEnv_job_name (job image env : string) :
  resolveImageEnv "" "" job = inr (image, env) <->
  job = image +:+ "." +:+ env /\ hasDot image = false /\ hasDot env = false.
Proof.
  unfold resolveImageEnv. simpl. split.
  - pose proof (Split_dot_concat job) as Hjoin.
    pose proof (Split_dot_pieces job) as Hpieces.
    destruct (Split_dot job) as [|a [|b [|c l]]]; try discriminate.
    intros [= <- <-]. simpl in Hjoin.
    inversion Hpieces as [|? ? Ha Hrest]; subst.
    inversion Hrest as [|? ? Hb _]; subst. auto.
  - intros (-> & Hi & He). rewrite (Split_dot_app _ _ Hi), (Split_dot_no_dot _ He).
    reflexivity.
Qed.

Lemma resolveImageEnv_job_name_witness :
  resolveImageEnv "" "" "app.staging" = inr ("app", "staging") /\
  hasDot "app" = false /\ hasDot "staging" = false.
Proof.
  destruct (proj1 (resolveImageEnv_job_name "app.staging" "app" "staging") eq_refl)
    as (_ & Hi & He).
  split; [|split; assumption].
  apply (proj2 (resolveImageEnv_job_name "app.staging" "app" "staging")).
  repeat split; assumption.
Defined.

(** ** Exit status and cleanup order *)

Section ExitAndCleanup.
Variable W : World.
Variable opts : Options.
Variable environ : gmap string string.




(** X5: with both [--image] and [--env] given, JOB_NAME is not used: two
    environments with the same BUILD_NUMBER give the same run, whatever
    their JOB_NAME is. *)
Theorem main_flags_override_job_name (environ' : gmap string string) :
  optImage opts <> "" -> optEnv opts <> "" ->
  Getenv environ "BUILD_NUMBER" = Getenv environ' "BUILD_NUMBER" ->
  main W opts environ = main W opts environ'.
Proof.
  intros Hi He Hb. unfold main, mainBody, package.
  rewrite !(resolveImageEnv_flags _ _ _ Hi He), Hb. reflexivity.
Qed.
End ExitAndCleanup.

Lemma main_flags_override_job_name_witness :
  "svc" <> "" /\ "prod" <> "" /\
  main (Demo.world Demo.allFine) (Demo.options "svc" "prod" [] false)
       (Demo.environ "nightly" "7")
  = main (Demo.world Demo.allFine) (Demo.options "svc" "prod" [] false)
         (Demo.environ "a.b.c" "7").
Proof.
  assert ("svc" <> "") as Hi by discriminate.
  assert ("prod" <> "") as He by discriminate.
  split; [exact Hi|]. split; [exact He|].
  apply (main_flags_override_job_name (Demo.world Demo.allFine)
           (Demo.options "svc" "prod" [] false)
           (Demo.environ "nightly" "7") (Demo.environ "a.b.c" "7") Hi He).
  vm_compute. reflexivity.
Defined.

(** ** A successful deployment *)

Section Deploy.
Variable W : World.
Variable opts : Options.
Variable environ : gmap string string.
Hypothesis Hdeploy : optSkipDeploy opts = false.



End Deploy.


(** ** Tag before push *)

Lemma pushAfterTag_nil : pushAfterTag [].
Proof. intros [|? ?] ? ? ? ? H; discriminate. Qed.

Lemma pushAfterTag_snoc (t : Trace) (e : Event) :
  pushAfterTag t -> isPush e = false -> pushAfterTag (t ++ [e]).
Proof.
  intros Ht He pre image dcDir o post Heq.
  destruct post as [|x post _] using rev_ind.
  - apply app_inj_tail in Heq as [_ ->]. discriminate.
  - rewrite app_comm_cons, app_assoc in Heq.
    apply app_inj_tail in Heq as [Heq _]. eapply Ht; eauto.
Qed.

Lemma pushAfterTag_app (t evs : Trace) :
  pushAfterTag t -> forallb (fun e => negb (isPush e)) evs = true ->
  pushAfterTag (t ++ evs).
Proof.
  revert t. induction evs as [|e evs IH]; intros t Ht Hall.
  - now rewrite app_nil_r.
  - simpl in Hall. apply andb_prop in Hall as [He Hall].
    change (t ++ e :: evs) with (t ++ [e] ++ evs). rewrite app_assoc.
    apply IH; [|exact Hall]. apply pushAfterTag_snoc; [exact Ht|].
    now destruct (isPush e).
Qed.

Lemma pushAfterTag_tag_push (t : Trace) (src dst dcDir : string) (o : option error) :
  pushAfterTag t ->
  pushAfterTag ((t ++ [Ev (CExecuteDockerTag src dst) None])
                ++ [Ev (CExecuteDockerPush dst dcDir) o]).
Proof.
  intros Ht pre image dc o' post Heq.
  destruct post as [|x post _] using rev_ind.
  - apply app_inj_tail in Heq as [<- [= <- <- <-]]. eauto.
  - rewrite app_comm_cons, app_assoc in Heq.
    apply app_inj_tail in Heq as [Heq _].
    eapply (pushAfterTag_snoc t (Ev (CExecuteDockerTag src dst) None) Ht eq_refl); eauto.
Qed.

Section TagBeforePush.
Variable W : World.
Variable opts : Options.
Variable environ : gmap string string.

Lemma deployAll_pushAfterTag imageNames workloads st :
  pushAfterTag (trace st) ->
  wp (forEach workloads (deployWorkload W opts imageNames))
     (fun _ st' => pushAfterTag (trace st')) st.
Proof.
  apply (deployAll_invariant W opts workloads imageNames
           (fun st' => pushAfterTag (trace st'))).
  - intros st' e H _ _ Hpush _. simpl. now apply pushAfterTag_snoc.
  - intros st' src dst dcDir o H. simpl. now apply pushAfterTag_tag_push.
  - intros st' workload s full ts image kc buf o H _ _ _ _ _. simpl.
    now apply pushAfterTag_snoc.
Qed.

(** X7: in every run, successful or not, each docker-push call comes
    directly after a docker-tag call that succeeded and whose target is
    the image pushed: nothing is called between tagging an image and
    pushing it, and nothing is pushed that was not just tagged. *)
Theorem main_tag_before_push (pre post : Trace) (image dcDir : string)
    (o : option error) :
  run_trace (main W opts environ)
    = pre ++ Ev (CExecuteDockerPush image dcDir) o :: post ->
  exists pre' src, pre = pre' ++ [Ev (CExecuteDockerTag src image) None].
Proof.
  revert pre image dcDir o post. change (pushAfterTag (run_trace (main W opts environ))).
  pattern (main W opts environ). apply main_cases.
  - intros t e Hcalls _ _. simpl.
    apply (pushAfterTag_app [] (t ++ [Ev CDeleteAll None]) pushAfterTag_nil).
    rewrite forallb_app. simpl. rewrite andb_true_r.
    clear -Hcalls. induction t as [|[c o] t IH]; [reflexivity|]. simpl in *.
    apply andb_prop in Hcalls as [Hc Hcalls]. rewrite (IH Hcalls).
    unfold isPackageCall, isPush in *. simpl in *. now destruct c.
  - intros image env fb fp primary st0 r st evs Hres names Hprim Ht Hu Hloop Hcalls.
    simpl.
    pose proof (deployAll_pushAfterTag names (optWorkloads opts) st0) as H.
    unfold wp in H. rewrite Hloop, Ht in H. simpl in H.
    apply pushAfterTag_app.
    + apply H. now apply (pushAfterTag_app [] _ pushAfterTag_nil).
    + pose proof (removal_calls_cleanup evs _ Hcalls) as Hcl.
      clear -Hcl. induction (evs ++ [Ev CDeleteAll None]) as [|[c o] l IH];
        [reflexivity|].
      simpl in *. apply andb_prop in Hcl as [Hc Hcl]. rewrite (IH Hcl).
      unfold isCleanup, isPush in *. simpl in *. now destruct c.
Qed.
End TagBeforePush.

Lemma main_tag_before_push_witness :
  run_trace Demo.failedPushRun =
    firstn 13 (run_trace Demo.failedPushRun)
    ++ Ev (CExecuteDockerPush "reg.b/svc:prod" "/tmp/deployer-dockerconfig")
          (Some "push failed")
    :: skipn 14 (run_trace Demo.failedPushRun) /\
  exists pre' src,
    firstn 13 (run_trace Demo.failedPushRun)
    = pre' ++ [Ev (CExecuteDockerTag src "reg.b/svc:prod") None].
Proof.
  assert (run_trace Demo.failedPushRun =
            firstn 13 (run_trace Demo.failedPushRun)
            ++ Ev (CExecuteDockerPush "reg.b/svc:prod" "/tmp/deployer-dockerconfig")
                  (Some "push failed")
            :: skipn 14 (run_trace Demo.failedPushRun)) as Hsplit
    by (vm_compute; reflexivity).
  split; [exact Hsplit|].
  exact (main_tag_before_push (Demo.world Demo.pushToBFails)
           (Demo.options "svc" "prod"
              [Demo.workload "a" "web" false; Demo.workload "b" "job" true;
               Demo.workload "c" "api" false] false)
           (Demo.environ "" "") _ _ _ _ _ Hsplit).
Defined.

(** ** The deferred functions *)

(** Whatever was deferred, running it only appends cleanup calls; two
    worlds make the same cleanup calls and choose the same status. *)
Lemma runDeferred_cleanup (W1 W2 : World) (ds : list Deferred) (r : Result unit)
    (used : ImageNames) (t c1 c2 : Trace) :
  map call c1 = map call c2 ->
  forallb isCleanup c1 = true -> forallb isCleanup c2 = true ->
  exists cl1 cl2 code,
    runDeferred W1 ds r used (t ++ c1) = (t ++ cl1, code) /\
    runDeferred W2 ds r used (t ++ c2) = (t ++ cl2, code) /\
    map call cl1 = map call cl2 /\
    forallb isCleanup cl1 = true /\ forallb isCleanup cl2 = true.
Proof.
  revert c1 c2. induction ds as [|d ds IH]; intros c1 c2 Hcalls H1 H2; simpl.
  - exists c1, c2, None. auto.
  - destruct d.
    + destruct (exit (errOfResult r)) as [code|]; [|now apply IH].
      exists c1, c2, (Some code). auto.
    + rewrite <- !app_assoc. apply IH.
      * now rewrite !map_app, Hcalls.
      * now rewrite forallb_app, H1.
      * now rewrite forallb_app, H2.
    + destruct (removeImages_spec W1 used (t ++ c1)) as (e1 & -> & He1).
      destruct (removeImages_spec W2 used (t ++ c2)) as (e2 & -> & He2).
      rewrite <- !app_assoc. apply IH.
      * now rewrite !map_app, Hcalls, He1, He2.
      * rewrite forallb_app, H1. simpl.
        pose proof (removal_calls_cleanup e1 _ He1) as H.
        rewrite forallb_app in H. now apply andb_prop in H as [H _].
      * rewrite forallb_app, H2. simpl.
        pose proof (removal_calls_cleanup e2 _ He2) as H.
        rewrite forallb_app in H. now apply andb_prop in H as [H _].
Qed.

(** X8: the answers of the image-removal executor are ignored. Changing
    them changes neither the calls made and their results up to the
    cleanup, nor which cleanup calls follow, nor the exit status, the
    error returned or the used image names. *)
Theorem main_removal_outcome_ignored (W : World)
    (answer : Trace -> string -> option error)
    (opts : Options) (environ : gmap string string) :
  exists stages cleanup cleanup',
    run_trace (main W opts environ) = stages ++ cleanup /\
    run_trace (main (withRemoveImage W answer) opts environ) = stages ++ cleanup' /\
    forallb isCleanup cleanup = true /\ forallb isCleanup cleanup' = true /\
    map call cleanup = map call cleanup' /\
    exit_code (main (withRemoveImage W answer) opts environ)
      = exit_code (main W opts environ) /\
    run_err (main (withRemoveImage W answer) opts environ)
      = run_err (main W opts environ) /\
    run_used (main (withRemoveImage W answer) opts environ)
      = run_used (main W opts environ).
Proof.
  unfold main.
  change (mainBody (withRemoveImage W answer) opts environ)
    with (mainBody W opts environ).
  destruct (mainBody W opts environ start) as [r st].
  destruct (runDeferred_cleanup W (withRemoveImage W answer) (deferred st) r
              (usedImageNames st) (trace st) [] [] eq_refl eq_refl eq_refl)
    as (cl1 & cl2 & code & H1 & H2 & Hcalls & Hc1 & Hc2).
  rewrite app_nil_r in H1, H2. rewrite H1, H2. simpl.
  exists (trace st), cl1, cl2. repeat split; auto.
Qed.

(** ** The error reported *)

Ltac reports_step Hok :=
  cbn [trace record useImage pushDeferred start reports];
  first
    [ solve [rewrite ?forallb_app, ?Hok; reflexivity]
    | solve [right; eexists _, _; split;
             [reflexivity|rewrite ?forallb_app, ?Hok; reflexivity]]
    | solve [left; rewrite ?forallb_app, ?Hok; reflexivity]
    | idtac ].

Section Reports.
Variable W : World.
Variable opts : Options.
Variable environ : gmap string string.

Lemma pushImages_reports imageNames primary fullImageNames dcDir st :
  Primary imageNames = Some primary ->
  forallb succeeded (trace st) = true ->
  wp (pushImages W imageNames fullImageNames dcDir) reports st.
Proof.
  intros Hprim Hok. unfold pushImages.
  apply (wp_forEach (fun _ st' => forallb succeeded (trace st') = true));
    [|auto|exact Hok].
  clear st Hok. intros full rest st Hok.
  wp_steps; reports_step Hok. congruence.
Qed.

Lemma deployWorkload_reports imageNames primary workload st :
  Primary imageNames = Some primary ->
  forallb succeeded (trace st) = true ->
  wp (deployWorkload W opts imageNames workload) reports st.
Proof.
  intros Hprim Hok. wp_steps; reports_step Hok.
  - eapply wp_mono; [|apply (pushImages_reports imageNames primary); auto;
                       reports_step Hok].
    intros [[]|e|] st' Hst'; simpl in *; auto.
    wp_steps; reports_step Hst'.
    match goal with
    | H : Derive _ _ = Some _ |- _ => destruct (Derive_Primary _ _ _ _ H Hprim)
    end. congruence.
  - destruct imageNames; simpl in *; congruence.
Qed.

Lemma deployAll_reports imageNames primary workloads st :
  Primary imageNames = Some primary ->
  forallb succeeded (trace st) = true ->
  wp (forEach workloads (deployWorkload W opts imageNames)) reports st.
Proof.
  intros Hprim Hok.
  apply (wp_forEach (fun _ st' => forallb succeeded (trace st') = true));
    [|auto|exact Hok].
  intros workload rest st' Hok'.
  eapply wp_mono; [|apply (deployWorkload_reports imageNames primary); auto].
  intros [[]|e|] st''; simpl; auto.
Qed.

Lemma mainBody_reports : wp (mainBody W opts environ) reports start.
Proof.
  unfold mainBody. apply wp_bind. unfold package.
  wp_steps; reports_step (@eq_refl bool true).
  all: try match goal with
           | H : Primary (computeImageNames ?i ?e ?b) = None |- _ =>
               destruct (computeImageNames_Primary i e b); congruence
           end.
  eapply deployAll_reports; eauto.
Qed.

(** X9: the error [main] ends with is the error of the stage call that
    failed: when a call other than a cleanup call returned an error,
    that error is the one reported by [exit]. *)
Theorem main_reports_call_error (pre post : Trace) (c : Call) (e : error) :
  run_trace (main W opts environ) = pre ++ Ev c (Some e) :: post ->
  isCleanup (Ev c (Some e)) = false ->
  run_err (main W opts environ) = Some e.
Proof.
  pose proof mainBody_reports as Hrep. unfold wp in Hrep. unfold main.
  destruct (mainBody W opts environ start) as [r st]. simpl in Hrep.
  destruct (runDeferred_cleanup W W (deferred st) r (usedImageNames st) (trace st)
              [] [] eq_refl eq_refl eq_refl) as (cl & _ & code & Hrun & _ & _ & Hcl & _).
  rewrite app_nil_r in Hrun. rewrite Hrun. simpl. intros Htrace Hstage.
  assert (forallb succeeded (trace st) = true -> False) as Hnot.
  { intros Hok.
    destruct (failed_call_is_last (trace st) cl pre post (Ev c (Some e)))
      as [Hbody _]; auto using succeeded_failsLast.
    rewrite Hbody, forallb_app in Hok. simpl in Hok.
    rewrite andb_false_r in Hok. discriminate. }
  destruct r as [[]|e'|]; simpl in Hrep; [now apply Hnot in Hrep| |contradiction].
  destruct Hrep as [Hok|(t & c' & Ht & Hok)]; [now apply Hnot in Hok|].
  destruct (failed_call_is_last (trace st) cl pre post (Ev c (Some e)))
    as [Hbody _]; auto.
  { rewrite Ht, failsLast_snoc. exact Hok. }
  rewrite Ht in Hbody. apply app_inj_tail in Hbody as [_ [= _ ->]]. reflexivity.
Qed.
End Reports.

Lemma main_reports_call_error_witness :
  run_trace Demo.failedPushRun =
    firstn 13 (run_trace Demo.failedPushRun)
    ++ Ev (CExecuteDockerPush "reg.b/svc:prod" "/tmp/deployer-dockerconfig")
          (Some "push failed")
    :: skipn 14 (run_trace Demo.failedPushRun) /\
  run_err Demo.failedPushRun = Some "push failed".
Proof.
  assert (run_trace Demo.failedPushRun =
            firstn 13 (run_trace Demo.failedPushRun)
            ++ Ev (CExecuteDockerPush "reg.b/svc:prod" "/tmp/deployer-dockerconfig")
                  (Some "push failed")
            :: skipn 14 (run_trace Demo.failedPushRun)) as Hsplit
    by (vm_compute; reflexivity).
  split; [exact Hsplit|].
  exact (main_reports_call_error (Demo.world Demo.pushToBFails)
           (Demo.options "svc" "prod"
              [Demo.workload "a" "web" false; Demo.workload "b" "job" true;
               Demo.workload "c" "api" false] false)
           (Demo.environ "" "") _ _ _ _ Hsplit eq_refl).
Defined.

(** ** No kubeconfig under [--skip-deploy] *)

Section NoKubeconfig.
Variable W : World.
Variable opts : Options.
Variable environ : gmap string string.
Hypothesis Hskip : optSkipDeploy opts = true.

Lemma deployAll_no_file_write imageNames workloads st :
  fileWrites (trace st) = [] ->
  wp (forEach workloads (deployWorkload W opts imageNames))
     (fun _ st' => fileWrites (trace st') = []) st.
Proof.
  apply (deployAll_invariant W opts workloads imageNames
           (fun st' => fileWrites (trace st') = [])).
  - intros st' [c o] H Hcall _ _ _. unfold fileWrites in *. simpl.
    rewrite flat_map_app, H. unfold loopCall in Hcall. rewrite Hskip in Hcall.
    simpl in *. now destruct c.
  - intros st' src dst dcDir o H. unfold fileWrites in *. simpl.
    now rewrite !flat_map_app, H.
  - intros st' workload s full ts image kc buf o _ _ Hno. congruence.
Qed.

(** X10: with [--skip-deploy] no kubeconfig is written: no run, failed
    or not, calls [tempfile.WriteFile]. *)
Theorem main_skip_deploy_no_kubeconfig :
  fileWrites (run_trace (main W opts environ)) = [].
Proof.
  pattern (main W opts environ). apply main_cases.
  - intros t e Hcalls _ _. simpl. unfold fileWrites. rewrite flat_map_app. simpl.
    rewrite app_nil_r. clear -Hcalls.
    induction t as [|[c o] t IH]; [reflexivity|].
    simpl in *. apply andb_prop in Hcalls as [Hc Hcalls].
    unfold isPackageCall in Hc. simpl in Hc. rewrite (IH Hcalls). now destruct c.
  - intros image env fb fp primary st0 r st evs Hres names Hprim Ht Hu Hloop Hcalls.
    simpl.
    pose proof (deployAll_no_file_write names (optWorkloads opts) st0) as H.
    unfold wp in H. rewrite Hloop, Ht in H. specialize (H eq_refl). simpl in H.
    unfold fileWrites in *. rewrite !flat_map_app, H. simpl. rewrite app_nil_r.
    clear -Hcalls. revert Hcalls. generalize (usedImageNames st).
    induction evs as [|[c o] evs IH]; intros [|n names] Hc; simpl in *;
      try discriminate; auto.
    injection Hc as -> Hc. simpl. eauto.
Qed.
End NoKubeconfig.

Lemma main_skip_deploy_no_kubeconfig_witness :
  optSkipDeploy (Demo.options "svc" "prod"
                   [Demo.workload "a" "web" false; Demo.workload "b" "job" true] true)
    = true /\
  fileWrites (run_trace Demo.skipDeployRun) = [].
Proof.
  split; [reflexivity|].
  exact (main_skip_deploy_no_kubeconfig (Demo.world Demo.allFine)
           (Demo.options "svc" "prod"
              [Demo.workload "a" "web" false; Demo.workload "b" "job" true] true)
           (Demo.environ "" "") eq_refl).
Defined.

(** ** No workloads *)

(** X11: without any [--workload], a run whose packaging succeeds makes
    the four packaging calls, removes the image it built and the
    temporary files, and ends with status 0: nothing is tagged, pushed
    or patched. *)
Theorem main_no_workloads (W : World) (opts : Options)
    (environ : gmap string string) (file primary : string) :
  optWorkloads opts = [] ->
  In (Ev (CExecuteDockerBuild file primary) None) (run_trace (main W opts environ)) ->
  exists env fileBuild o,
    run_trace (main W opts environ) =
      [Ev (CLoadManifestFile (optManifest opts)) None;
       Ev (CGenerateFiles env) None;
       Ev (CExecute fileBuild) None;
       Ev (CExecuteDockerBuild file primary) None;
       Ev (CExecuteDockerRemoveImage primary) o;
       Ev CDeleteAll None] /\
    exit_code (main W opts environ) = 0%Z.
Proof.
  intros Hnone. pattern (main W opts environ). apply main_cases.
  - intros t e _ _ Hbuilt Hin. simpl in Hin. apply built_In in Hin.
    unfold built in *. rewrite flat_map_app, Hbuilt in Hin. contradiction.
  - intros image env fb fp primary' st0 r st evs Hres names Hprim Ht Hu Hloop Hcalls.
    rewrite Hnone in Hloop. simpl in Hloop. injection Hloop as <- <-.
    rewrite Hu in Hcalls. rewrite Ht. simpl.
    destruct evs as [|[c o] [|x evs]]; try discriminate.
    simpl in Hcalls. injection Hcalls as ->.
    intros [Hin|[Hin|[Hin|[Hin|[Hin|[Hin|[]]]]]]]; try discriminate.
    injection Hin as <- <-. eauto.
Qed.

Lemma main_no_workloads_witness :
  optWorkloads (Demo.options "svc" "prod" [] false) = [] /\
  In (Ev (CExecuteDockerBuild "/tmp/Dockerfile" "svc:prod") None)
     (run_trace (main (Demo.world Demo.allFine) (Demo.options "svc" "prod" [] false)
                      (Demo.environ "" ""))) /\
  exit_code (main (Demo.world Demo.allFine) (Demo.options "svc" "prod" [] false)
                  (Demo.environ "" "")) = 0%Z.
Proof.
  assert (In (Ev (CExecuteDockerBuild "/tmp/Dockerfile" "svc:prod") None)
             (run_trace (main (Demo.world Demo.allFine)
                              (Demo.options "svc" "prod" [] false)
                              (Demo.environ "" "")))) as Hin
    by (vm_compute; tauto).
  split; [reflexivity|]. split; [exact Hin|].
  destruct (main_no_workloads (Demo.world Demo.allFine)
              (Demo.options "svc" "prod" [] false) (Demo.environ "" "")
              _ _ eq_refl Hin) as (env & fb & o & _ & Hexit).
  exact Hexit.
Defined.

(** ** The source of every tag *)

Lemma tagSources_snoc (t : Trace) (e : Event) :
  tagSources (t ++ [e]) =
  tagSources t ++ match call e with CExecuteDockerTag src _ => [src] | _ => [] end.
Proof. unfold tagSources. rewrite flat_map_app. simpl. now rewrite app_nil_r. Qed.

Section TagSource.
Variable W : World.
Variable opts : Options.
Variable environ : gmap string string.
Variable imageNames : ImageNames.
Variable primary : string.
Hypothesis Hprimary : Primary imageNames = Some primary.

Ltac sources_step H :=
  cbn [trace record useImage]; rewrite ?tagSources_snoc; cbn [call];
  rewrite ?Forall_app, ?app_nil_r;
  repeat split; auto; try congruence;
  try (repeat constructor; congruence).

Lemma pushImages_tag_source fullImageNames dcDir st :
  Forall (eq primary) (tagSources (trace st)) ->
  wp (pushImages W imageNames fullImageNames dcDir)
     (fun _ st' => Forall (eq primary) (tagSources (trace st'))) st.
Proof.
  intros H. unfold pushImages.
  apply (wp_forEach (fun _ st' => Forall (eq primary) (tagSources (trace st'))));
    [|auto|exact H].
  clear st H. intros full rest st H.
  wp_steps; sources_step H.
Qed.

Lemma deployWorkload_tag_source workload st :
  Forall (eq primary) (tagSources (trace st)) ->
  wp (deployWorkload W opts imageNames workload)
     (fun _ st' => Forall (eq primary) (tagSources (trace st'))) st.
Proof.
  intros H. wp_steps; sources_step H.
  eapply wp_mono; [|apply pushImages_tag_source; sources_step H].
  intros [[]|e|] st' Hst'; simpl; auto.
  wp_steps; sources_step Hst'.
Qed.

Lemma deployAll_tag_source workloads st :
  Forall (eq primary) (tagSources (trace st)) ->
  wp (forEach workloads (deployWorkload W opts imageNames))
     (fun _ st' => Forall (eq primary) (tagSources (trace st'))) st.
Proof.
  intros H.
  apply (wp_forEach (fun _ st' => Forall (eq primary) (tagSources (trace st'))));
    [|auto|exact H].
  intros workload rest st' H'.
  eapply wp_mono; [|apply deployWorkload_tag_source; exact H'].
  intros [[]|e|] st''; simpl; auto.
Qed.
End TagSource.

(** X12: every docker-tag call of a run, failed ones too, takes as its
    source the image that the run's docker build produced: the primary
    name. *)
Theorem main_tag_source (W : World) (opts : Options)
    (environ : gmap string string) (src dst : string) (o : option error) :
  In (Ev (CExecuteDockerTag src dst) o) (run_trace (main W opts environ)) ->
  built (run_trace (main W opts environ)) = [src] /\
  Primary (runImageNames opts environ) = Some src.
Proof.
  assert (forall t : Trace, In (Ev (CExecuteDockerTag src dst) o) t ->
                            In src (tagSources t)) as Hsrc.
  { intros t Hin. unfold tagSources. apply in_flat_map. eexists.
    split; [exact Hin|]. now left. }
  pattern (main W opts environ). apply main_cases.
  - intros t e Hcalls _ _ Hin. simpl in Hin. apply Hsrc in Hin.
    rewrite tagSources_snoc in Hin. simpl in Hin. rewrite app_nil_r in Hin.
    exfalso. clear -Hcalls Hin. induction t as [|[c o] t IH]; [contradiction|].
    simpl in *. apply andb_prop in Hcalls as [Hc Hcalls].
    unfold isPackageCall in Hc. simpl in Hc. unfold tagSources in *. simpl in Hin.
    apply in_app_or in Hin as [Hin|Hin]; [|auto].
    destruct c; try discriminate; contradiction.
  - intros image env fb fp primary st0 r st evs Hres names Hprim Ht Hu Hloop Hcalls Hin.
    simpl in *.
    pose proof (deployAll_tag_source W opts names primary Hprim
                  (optWorkloads opts) st0) as H.
    pose proof (deployAll_used W opts primary names (optWorkloads opts) st0) as Hused.
    unfold wp in H, Hused. rewrite Hloop in H, Hused. simpl in H, Hused.
    destruct Hused as (_ & _ & _ & Hb).
    { unfold usedInv. rewrite Ht, Hu. repeat split; auto. intros x []. }
    destruct (removal_calls_observed evs _ Hcalls) as (_ & _ & _ & Hb' & _).
    assert (src = primary) as ->.
    { apply Hsrc in Hin. unfold tagSources in Hin. rewrite !flat_map_app in Hin.
      apply in_app_or in Hin as [Hin|Hin].
      - symmetry. eapply (proj1 (List.Forall_forall _ _)); [apply H|exact Hin].
        rewrite Ht. constructor.
      - exfalso. simpl in Hin. rewrite app_nil_r in Hin.
        clear -Hcalls Hin. revert Hcalls. generalize (usedImageNames st).
        induction evs as [|[c o] evs IH]; intros [|n l] Hc; simpl in *;
          try discriminate; try contradiction.
        injection Hc as -> Hc. simpl in Hin. eauto. }
    split.
    + unfold built in *. rewrite !flat_map_app, Hb, Hb'. reflexivity.
    + unfold runImageNames. now rewrite Hres.
Qed.

Lemma main_tag_source_witness :
  In (Ev (CExecuteDockerTag "svc:prod" "reg.b/svc:prod") None)
     (run_trace Demo.failedPushRun) /\
  built (run_trace Demo.failedPushRun) = ["svc:prod"].
Proof.
  assert (In (Ev (CExecuteDockerTag "svc:prod" "reg.b/svc:prod") None)
             (run_trace Demo.failedPushRun)) as Hin
    by (vm_compute; tauto).
  split; [exact Hin|].
  exact (proj1 (main_tag_source (Demo.world Demo.pushToBFails)
                  (Demo.options "svc" "prod"
                     [Demo.workload "a" "web" false; Demo.workload "b" "job" true;
                      Demo.workload "c" "api" false] false)
                  (Demo.environ "" "") _ _ _ Hin)).
Defined.

